(** * ProofPayEscrow: a shallow embedding of the escrow contract

    The contract [ProofPayEscrow] (Solidity ^0.8.19) is embedded as
    executable functions over an explicit contract state.  Each external
    function of the contract becomes a computation in a small
    state-and-revert monad; a revert discards every change made by the
    call, as the EVM does.

    Conventions.
    - [uint256], [address] and [bytes32] are carried by [N].  Solidity 0.8
      arithmetic is checked: [+], [-] and [*] revert with a panic instead of
      wrapping, which [checked_add], [checked_sub] and [checked_mul] spell
      out.
    - The mapping [escrows] is a [gmap] read through [!!!]: an absent key
      reads as the all-zero record, as a Solidity mapping does.
    - The USDC token is external to the contract.  It is an interface
      ([IERC20]); nothing is assumed about an implementation, which may
      return [false] or revert on any call.
    - The token never calls back into the escrow contract in this model, so
      the [nonReentrant] modifier never fires and is not represented.
    - [msg.sender] is never [address(0)] in a transaction ([valid_env]).
    - [keccak256(abi.encodePacked(...))] in [createEscrow] is a parameter
      ([escrowIdOf]). *)

From Stdlib Require Import NArith Lia List String.
From stdpp Require Import base decidable option numbers list strings gmap.
Import ListNotations.

Local Open Scope N_scope.

(** ** Machine types *)

Abbreviation uint256 := N (only parsing).
Abbreviation address := N (only parsing).
Abbreviation bytes32 := N (only parsing).

Definition MAX_UINT256 : N := 2 ^ 256 - 1.

(** [address(0)] *)
Definition address0 : address := 0.

(** ** Contract data *)

Inductive EscrowStatus :=
| CREATED      (* Escrow created, waiting for payment *)
| FUNDED       (* Payment received, waiting for delivery *)
| COMPLETED    (* Delivery confirmed, funds released *)
| DISPUTED     (* Dispute raised *)
| REFUNDED     (* Funds returned to buyer *)
| CANCELLED.   (* Escrow cancelled *)

#[global] Instance EscrowStatus_eq_dec : EqDecision EscrowStatus.
Proof. solve_decision. Defined.

Record Escrow := mkEscrow {
  buyer : address;
  seller : address;
  amount : uint256;
  createdAt : uint256;
  autoReleaseTime : uint256;
  status : EscrowStatus;
  disputeRaised : bool;
  disputeRaisedBy : address
}.

(** The value a mapping slot holds before anything is written to it. *)
Definition zero_escrow : Escrow :=
  mkEscrow address0 address0 0 0 0 CREATED false address0.

#[global] Instance Escrow_inhabited : Inhabited Escrow := populate zero_escrow.

Definition set_status (st : EscrowStatus) (e : Escrow) : Escrow :=
  mkEscrow (buyer e) (seller e) (amount e) (createdAt e) (autoReleaseTime e)
           st (disputeRaised e) (disputeRaisedBy e).

Definition set_disputeRaised (b : bool) (e : Escrow) : Escrow :=
  mkEscrow (buyer e) (seller e) (amount e) (createdAt e) (autoReleaseTime e)
           (status e) b (disputeRaisedBy e).

Definition set_disputeRaisedBy (a : address) (e : Escrow) : Escrow :=
  mkEscrow (buyer e) (seller e) (amount e) (createdAt e) (autoReleaseTime e)
           (status e) (disputeRaised e) a.

(** [uint256 public constant AUTO_RELEASE_PERIOD = 7 days;] *)
Definition AUTO_RELEASE_PERIOD : uint256 := 7 * 24 * 60 * 60.

(** ** Events *)

Inductive Event :=
| EscrowCreated (escrowId : bytes32) (buyer seller : address)
                (amount autoReleaseTime : uint256)
| EscrowFunded (escrowId : bytes32) (amount : uint256)
| EscrowCompleted (escrowId : bytes32) (amountToSeller platformFee : uint256)
| EscrowRefunded (escrowId : bytes32) (amount : uint256)
| DisputeRaised (escrowId : bytes32) (raisedBy : address)
| DisputeResolved (escrowId : bytes32) (buyerAmount sellerAmount : uint256)
| AutoReleaseExecuted (escrowId : bytes32).

(** What a call does to the outside world, in program order: calls into the
    token and emitted events. *)
Inductive Effect :=
| CallTransfer (to : address) (value : uint256)
| CallTransferFrom (from to : address) (value : uint256)
| Emit (ev : Event).

(** ** Reverts *)

(** One constructor per [require] of the contract (and of the inherited
    [Ownable]), one for an arithmetic panic, one for a revert raised inside
    the token. *)
Inductive Error :=
| InvalidUSDCAddress
| InvalidFeeCollector
| InvalidAddresses
| SameBuyerSeller
| ZeroAmount
| EscrowAlreadyExists
| InvalidEscrowStatus
| OnlyBuyerCanFund
| USDCTransferFailed
| EscrowNotFunded
| OnlyBuyerCanRelease
| DisputeIsActive
| AutoReleaseTimeNotReached
| OnlyBuyerOrSellerCanDispute
| DisputeAlreadyRaised
| NotInDispute
| InvalidPercentage
| BuyerTransferFailed
| SellerTransferFailed
| FeeTransferFailed
| FeeTooHigh
| InvalidAddress
| CallerIsNotTheOwner
| NewOwnerIsZeroAddress
| ArithmeticPanic
| TokenReverted.

#[global] Instance Error_eq_dec : EqDecision Error.
Proof. solve_decision. Defined.

(** The revert strings of the source. *)
Local Open Scope string_scope.

Definition message (e : Error) : string :=
  match e with
  | InvalidUSDCAddress => "Invalid USDC address"
  | InvalidFeeCollector => "Invalid fee collector"
  | InvalidAddresses => "Invalid addresses"
  | SameBuyerSeller => "Buyer and seller cannot be the same"
  | ZeroAmount => "Amount must be greater than 0"
  | EscrowAlreadyExists => "Escrow already exists"
  | InvalidEscrowStatus => "Invalid escrow status"
  | OnlyBuyerCanFund => "Only buyer can fund"
  | USDCTransferFailed => "USDC transfer failed"
  | EscrowNotFunded => "Escrow not funded"
  | OnlyBuyerCanRelease => "Only buyer can release"
  | DisputeIsActive => "Dispute is active"
  | AutoReleaseTimeNotReached => "Auto-release time not reached"
  | OnlyBuyerOrSellerCanDispute => "Only buyer or seller can dispute"
  | DisputeAlreadyRaised => "Dispute already raised"
  | NotInDispute => "Not in dispute"
  | InvalidPercentage => "Invalid percentage"
  | BuyerTransferFailed => "Buyer transfer failed"
  | SellerTransferFailed => "Seller transfer failed"
  | FeeTransferFailed => "Fee transfer failed"
  | FeeTooHigh => "Fee too high"
  | InvalidAddress => "Invalid address"
  | CallerIsNotTheOwner => "Ownable: caller is not the owner"
  | NewOwnerIsZeroAddress => "Ownable: new owner is the zero address"
  | ArithmeticPanic => "panic 0x11"
  | TokenReverted => "token reverted"
  end.

Local Close Scope string_scope.

(** The failure kinds of the specification's error taxonomy. *)
Inductive ErrorKind :=
| InvalidInput
| NotFound
| AlreadyExists
| InvalidState
| Unauthorized
| Conflict
| TransferFailed
| ConfigurationRejected.

#[global] Instance ErrorKind_eq_dec : EqDecision ErrorKind.
Proof. solve_decision. Defined.

(** How each revert of the contract reads in that taxonomy: a [require] on
    the arguments is [InvalidInput], on the stored status, dispute flag or
    deadline [InvalidState], on [msg.sender] [Unauthorized], on a token
    call [TransferFailed]; the fee bound is [ConfigurationRejected].  No
    revert of the contract reads as [NotFound] or [Conflict], and an
    arithmetic panic has no kind. *)
Definition kind (e : Error) : option ErrorKind :=
  match e with
  | InvalidUSDCAddress | InvalidFeeCollector | InvalidAddresses
  | SameBuyerSeller | ZeroAmount | InvalidPercentage | InvalidAddress
  | NewOwnerIsZeroAddress => Some InvalidInput
  | EscrowAlreadyExists => Some AlreadyExists
  | InvalidEscrowStatus | EscrowNotFunded | DisputeIsActive
  | AutoReleaseTimeNotReached | DisputeAlreadyRaised | NotInDispute =>
      Some InvalidState
  | OnlyBuyerCanFund | OnlyBuyerCanRelease | OnlyBuyerOrSellerCanDispute
  | CallerIsNotTheOwner => Some Unauthorized
  | USDCTransferFailed | BuyerTransferFailed | SellerTransferFailed
  | FeeTransferFailed | TokenReverted => Some TransferFailed
  | FeeTooHigh => Some ConfigurationRejected
  | ArithmeticPanic => None
  end.

(** ** The token interface *)

(** [IERC20], seen from the escrow contract.  A call either reverts
    ([None]) or returns a boolean with the token's next state.  [caller] is
    the [msg.sender] the token sees, i.e. the escrow contract. *)
Class IERC20 (Token : Type) := {
  erc20_transfer :
    Token -> forall (caller to : address) (value : uint256), option (bool * Token);
  erc20_transferFrom :
    Token -> forall (caller from to : address) (value : uint256), option (bool * Token)
}.

(** ** The identifier hash *)

(** [keccak256(abi.encodePacked(buyer, seller, amount, block.timestamp,
    block.number))] of [createEscrow]: the hash is outside the contract and
    is taken as a parameter. *)
Class EscrowIdHash :=
  escrowIdOf : address -> address -> uint256 -> uint256 -> uint256 -> bytes32.

(** ** The transaction environment *)

Record Env := mkEnv {
  msg_sender : address;
  block_timestamp : uint256;
  block_number : uint256
}.

(** ** The external interface of the contract *)

(** The tuple [getEscrow] returns: every field but [disputeRaisedBy]. *)
Definition EscrowView : Type :=
  address * address * uint256 * uint256 * uint256 * EscrowStatus * bool.

(** One constructor per state-changing external function, and [getEscrow].
    (The remaining public getters read a single storage slot and are left
    out.) *)
Inductive Call :=
| CreateEscrow (buyer seller : address) (amount : uint256)
| FundEscrow (escrowId : bytes32)
| ReleaseFunds (escrowId : bytes32)
| AutoRelease (escrowId : bytes32)
| RaiseDispute (escrowId : bytes32)
| ResolveDispute (escrowId : bytes32) (buyerPercentage : uint256)
| UpdatePlatformFee (newFeeBps : uint256)
| UpdateFeeCollector (newCollector : address)
| GetEscrow (escrowId : bytes32)
| RenounceOwnership
| TransferOwnership (newOwner : address).

Inductive RetVal :=
| RetUnit
| RetEscrowId (escrowId : bytes32)
| RetEscrow (v : EscrowView).

(** The payout calls of a log, in order: recipient and value of every
    [USDC.transfer]. *)
Fixpoint transfers (log : list Effect) : list (address * uint256) :=
  match log with
  | [] => []
  | CallTransfer to value :: rest => (to, value) :: transfers rest
  | _ :: rest => transfers rest
  end.


(** Position of a status in the order
    Created < Funded < {Completed, Disputed, Refunded, Cancelled}. *)
Definition rank (st : EscrowStatus) : nat :=
  match st with
  | CREATED => 0%nat
  | FUNDED => 1%nat
  | COMPLETED | DISPUTED | REFUNDED | CANCELLED => 2%nat
  end.

Definition terminal (st : EscrowStatus) : bool :=
  match st with
  | COMPLETED | REFUNDED | CANCELLED => true
  | _ => false
  end.

(** ** The state machine of one escrow record *)

(** What a single call can do to one stored record.  [exec_escrow_step]
    below proves that every call of the contract acts on every record by
    one of these moves. *)
Inductive escrow_step (e : Escrow) : Escrow -> Prop :=
| step_none :
    escrow_step e e
| step_create b sl a t :
    buyer e = address0 ->
    b <> address0 -> sl <> address0 -> b <> sl -> 0 < a ->
    escrow_step e (mkEscrow b sl a t (t + AUTO_RELEASE_PERIOD) CREATED false address0)
| step_fund :
    status e = CREATED -> buyer e <> address0 ->
    escrow_step e (set_status FUNDED e)
| step_release :
    status e = FUNDED -> disputeRaised e = false ->
    escrow_step e (set_status COMPLETED e)
| step_dispute who :
    status e = FUNDED -> disputeRaised e = false ->
    escrow_step e (set_disputeRaisedBy who (set_disputeRaised true (set_status DISPUTED e)))
| step_resolve :
    status e = DISPUTED ->
    escrow_step e (set_status COMPLETED e).

(** The shape of a stored record in a reachable state. *)
Record escrow_inv (e : Escrow) : Prop := mkEscrowInv {
  inv_unwritten : buyer e = address0 -> e = zero_escrow;
  inv_parties : buyer e <> address0 -> seller e <> address0 /\ buyer e <> seller e;
  inv_amount : buyer e <> address0 -> 0 < amount e;
  inv_deadline : buyer e <> address0 ->
                 autoReleaseTime e = createdAt e + AUTO_RELEASE_PERIOD;
  inv_funded : status e = FUNDED -> disputeRaised e = false;
  inv_disputed : status e = DISPUTED -> disputeRaised e = true;
  inv_flag : disputeRaised e = true -> status e = DISPUTED \/ status e = COMPLETED;
  inv_reserved : status e <> REFUNDED /\ status e <> CANCELLED
}.

(** The fields written once, by [createEscrow]. *)
Definition same_terms (e e' : Escrow) : Prop :=
  buyer e' = buyer e /\ seller e' = seller e /\ amount e' = amount e /\
  createdAt e' = createdAt e /\ autoReleaseTime e' = autoReleaseTime e.

Section Contract.

Context {Token : Type} {erc20 : IERC20 Token} {hash : EscrowIdHash}.

(** ** Contract state *)

(** The storage of the contract ([USDC] is immutable and [owner] is the
    slot of the inherited [Ownable]), its own address and the state of the
    token contract it talks to. *)
Record State := mkState {
  this : address;
  USDC : address;
  escrows : gmap bytes32 Escrow;
  platformFeeBps : uint256;
  feeCollector : address;
  owner : address;
  token : Token
}.

Definition set_escrows (m : gmap bytes32 Escrow) (s : State) : State :=
  mkState (this s) (USDC s) m (platformFeeBps s) (feeCollector s) (owner s) (token s).

Definition set_platformFeeBps (bps : uint256) (s : State) : State :=
  mkState (this s) (USDC s) (escrows s) bps (feeCollector s) (owner s) (token s).

Definition set_feeCollector (a : address) (s : State) : State :=
  mkState (this s) (USDC s) (escrows s) (platformFeeBps s) a (owner s) (token s).

Definition set_owner (a : address) (s : State) : State :=
  mkState (this s) (USDC s) (escrows s) (platformFeeBps s) (feeCollector s) a (token s).

Definition set_token (t : Token) (s : State) : State :=
  mkState (this s) (USDC s) (escrows s) (platformFeeBps s) (feeCollector s) (owner s) t.

(** [escrows[escrowId]] *)
Definition escrow_at (s : State) (escrowId : bytes32) : Escrow :=
  escrows s !!! escrowId.

(** ** The execution monad *)

(** A call threads the state and the log of its effects.  It ends in
    [Success] with a return value, or in [Reverted]; a revert carries what
    had been attempted up to there and no state, since the EVM rolls the
    state back. *)
Inductive Outcome (A : Type) :=
| Success (a : A) (s : State) (log : list Effect)
| Reverted (e : Error) (log : list Effect).

Arguments Success {A} a s log.
Arguments Reverted {A} e log.

Definition M (A : Type) : Type := State -> list Effect -> Outcome A.

#[local] Instance M_ret : MRet M := fun A a s log => Success a s log.

#[local] Instance M_bind : MBind M := fun A B k m s log =>
  match m s log with
  | Success a s' log' => k a s' log'
  | Reverted e log' => Reverted e log'
  end.

Definition revert {A} (e : Error) : M A := fun _ log => Reverted e log.

Definition require (cond : bool) (e : Error) : M unit :=
  if cond then mret tt else revert e.

Definition gets {A} (f : State -> A) : M A := fun s log => Success (f s) s log.

Definition modify (f : State -> State) : M unit := fun s log => Success tt (f s) log.

Definition emit (ev : Event) : M unit := fun s log => Success tt s (log ++ [Emit ev]).

(** [if (cond) { body }] *)
Definition when (cond : bool) (body : M unit) : M unit :=
  if cond then body else mret tt.

(** Reading through a storage pointer [Escrow storage escrow =
    escrows[escrowId]].  A function reads the record once, where it takes
    the pointer: until its own writes at the end nothing else writes to the
    record, so every later field read sees the same values. *)
Definition sload (escrowId : bytes32) : M Escrow :=
  gets (fun s => escrow_at s escrowId).

(** [escrows[escrowId] = e] *)
Definition sstore (escrowId : bytes32) (e : Escrow) : M unit :=
  modify (fun s => set_escrows (<[escrowId := e]> (escrows s)) s).

(** Writing one field through a storage pointer. *)
Definition supdate (escrowId : bytes32) (f : Escrow -> Escrow) : M unit :=
  modify (fun s => set_escrows (<[escrowId := f (escrow_at s escrowId)]> (escrows s)) s).

(** Checked arithmetic of Solidity 0.8 on [uint256]. *)
Definition checked_add (a b : uint256) : M uint256 :=
  if bool_decide (a + b <= MAX_UINT256) then mret (a + b) else revert ArithmeticPanic.

Definition checked_sub (a b : uint256) : M uint256 :=
  if bool_decide (b <= a) then mret (a - b) else revert ArithmeticPanic.

Definition checked_mul (a b : uint256) : M uint256 :=
  if bool_decide (a * b <= MAX_UINT256) then mret (a * b) else revert ArithmeticPanic.

(** [USDC.transfer(to, value)], called by the contract. *)
Definition USDC_transfer (to : address) (value : uint256) : M bool :=
  fun s log =>
    let log' := log ++ [CallTransfer to value] in
    match erc20_transfer (token s) (this s) to value with
    | Some (ok, t') => Success ok (set_token t' s) log'
    | None => Reverted TokenReverted log'
    end.

(** [USDC.transferFrom(from, to, value)], called by the contract. *)
Definition USDC_transferFrom (from to : address) (value : uint256) : M bool :=
  fun s log =>
    let log' := log ++ [CallTransferFrom from to value] in
    match erc20_transferFrom (token s) (this s) from to value with
    | Some (ok, t') => Success ok (set_token t' s) log'
    | None => Reverted TokenReverted log'
    end.

(** The [onlyOwner] modifier of [Ownable]. *)
Definition onlyOwner (env : Env) : M unit :=
  o ← gets owner;
  require (bool_decide (o = msg_sender env)) CallerIsNotTheOwner.

(** ** The contract *)

(** The constructor ([Ownable]'s runs first and makes the deployer the
    owner).  [this_] is the address the contract is deployed at and [tok]
    the state of the token at that moment. *)
Definition constructor (env : Env) (this_ : address) (tok : Token)
    (_usdcAddress _feeCollector : address) : Error + State :=
  if negb (bool_decide (_usdcAddress <> address0)) then inl InvalidUSDCAddress
  else if negb (bool_decide (_feeCollector <> address0)) then inl InvalidFeeCollector
  else inr (mkState this_ _usdcAddress ∅ 50 _feeCollector (msg_sender env) tok).

Definition createEscrow (env : Env) (buyer_ seller_ : address) (amount_ : uint256)
    : M bytes32 :=
  require (bool_decide (buyer_ <> address0) && bool_decide (seller_ <> address0))
          InvalidAddresses;;
  require (bool_decide (buyer_ <> seller_)) SameBuyerSeller;;
  require (bool_decide (0 < amount_)) ZeroAmount;;
  let escrowId :=
    escrowIdOf buyer_ seller_ amount_ (block_timestamp env) (block_number env) in
  existing ← sload escrowId;
  require (bool_decide (buyer existing = address0)) EscrowAlreadyExists;;
  autoReleaseTime_ ← checked_add (block_timestamp env) AUTO_RELEASE_PERIOD;
  sstore escrowId
    {| buyer := buyer_;
       seller := seller_;
       amount := amount_;
       createdAt := block_timestamp env;
       autoReleaseTime := autoReleaseTime_;
       status := CREATED;
       disputeRaised := false;
       disputeRaisedBy := address0 |};;
  emit (EscrowCreated escrowId buyer_ seller_ amount_ autoReleaseTime_);;
  mret escrowId.

Definition fundEscrow (env : Env) (escrowId : bytes32) : M unit :=
  escrow ← sload escrowId;
  require (bool_decide (status escrow = CREATED)) InvalidEscrowStatus;;
  require (bool_decide (msg_sender env = buyer escrow)) OnlyBuyerCanFund;;
  self ← gets this;
  ok ← USDC_transferFrom (msg_sender env) self (amount escrow);
  require ok USDCTransferFailed;;
  supdate escrowId (set_status FUNDED);;
  escrow' ← sload escrowId;
  emit (EscrowFunded escrowId (amount escrow')).

(** Internal function to complete escrow and transfer funds. *)
Definition _completeEscrow (escrowId : bytes32) : M unit :=
  escrow ← sload escrowId;
  feeBps ← gets platformFeeBps;
  product ← checked_mul (amount escrow) feeBps;
  let platformFee := product / 10000 in
  sellerAmount ← checked_sub (amount escrow) platformFee;
  ok ← USDC_transfer (seller escrow) sellerAmount;
  require ok SellerTransferFailed;;
  collector ← gets feeCollector;
  ok' ← USDC_transfer collector platformFee;
  require ok' FeeTransferFailed;;
  supdate escrowId (set_status COMPLETED);;
  emit (EscrowCompleted escrowId sellerAmount platformFee).

Definition releaseFunds (env : Env) (escrowId : bytes32) : M unit :=
  escrow ← sload escrowId;
  require (bool_decide (status escrow = FUNDED)) EscrowNotFunded;;
  require (bool_decide (msg_sender env = buyer escrow)) OnlyBuyerCanRelease;;
  require (negb (disputeRaised escrow)) DisputeIsActive;;
  _completeEscrow escrowId.

Definition autoRelease (env : Env) (escrowId : bytes32) : M unit :=
  escrow ← sload escrowId;
  require (bool_decide (status escrow = FUNDED)) EscrowNotFunded;;
  require (bool_decide (autoReleaseTime escrow <= block_timestamp env))
          AutoReleaseTimeNotReached;;
  require (negb (disputeRaised escrow)) DisputeIsActive;;
  _completeEscrow escrowId;;
  emit (AutoReleaseExecuted escrowId).

Definition raiseDispute (env : Env) (escrowId : bytes32) : M unit :=
  escrow ← sload escrowId;
  require (bool_decide (status escrow = FUNDED)) EscrowNotFunded;;
  require (bool_decide (msg_sender env = buyer escrow)
           || bool_decide (msg_sender env = seller escrow))
          OnlyBuyerOrSellerCanDispute;;
  require (negb (disputeRaised escrow)) DisputeAlreadyRaised;;
  supdate escrowId (set_status DISPUTED);;
  supdate escrowId (set_disputeRaised true);;
  supdate escrowId (set_disputeRaisedBy (msg_sender env));;
  emit (DisputeRaised escrowId (msg_sender env)).

Definition resolveDispute (env : Env) (escrowId : bytes32) (buyerPercentage : uint256)
    : M unit :=
  onlyOwner env;;
  escrow ← sload escrowId;
  require (bool_decide (status escrow = DISPUTED)) NotInDispute;;
  require (bool_decide (buyerPercentage <= 100)) InvalidPercentage;;
  let totalAmount := amount escrow in
  product ← checked_mul totalAmount buyerPercentage;
  let buyerAmount := product / 100 in
  sellerAmount ← checked_sub totalAmount buyerAmount;
  when (bool_decide (0 < buyerAmount))
    (ok ← USDC_transfer (buyer escrow) buyerAmount;
     require ok BuyerTransferFailed);;
  when (bool_decide (0 < sellerAmount))
    (feeBps ← gets platformFeeBps;
     product' ← checked_mul sellerAmount feeBps;
     let platformFee := product' / 10000 in
     sellerNet ← checked_sub sellerAmount platformFee;
     ok ← USDC_transfer (seller escrow) sellerNet;
     require ok SellerTransferFailed;;
     collector ← gets feeCollector;
     ok' ← USDC_transfer collector platformFee;
     require ok' FeeTransferFailed);;
  supdate escrowId (set_status COMPLETED);;
  emit (DisputeResolved escrowId buyerAmount sellerAmount).

Definition updatePlatformFee (env : Env) (newFeeBps : uint256) : M unit :=
  onlyOwner env;;
  require (bool_decide (newFeeBps <= 1000)) FeeTooHigh;;
  modify (set_platformFeeBps newFeeBps).

Definition updateFeeCollector (env : Env) (newCollector : address) : M unit :=
  onlyOwner env;;
  require (bool_decide (newCollector <> address0)) InvalidAddress;;
  modify (set_feeCollector newCollector).

Definition getEscrow (escrowId : bytes32) : M EscrowView :=
  escrow ← sload escrowId;
  mret (buyer escrow, seller escrow, amount escrow, createdAt escrow,
       autoReleaseTime escrow, status escrow, disputeRaised escrow).

(** The two public functions inherited from OpenZeppelin's [Ownable]. *)
Definition renounceOwnership (env : Env) : M unit :=
  onlyOwner env;;
  modify (set_owner address0).

Definition transferOwnership (env : Env) (newOwner : address) : M unit :=
  onlyOwner env;;
  require (bool_decide (newOwner <> address0)) NewOwnerIsZeroAddress;;
  modify (set_owner newOwner).

(** ** Transactions *)

Definition dispatch (env : Env) (c : Call) : M RetVal :=
  match c with
  | CreateEscrow buyer_ seller_ amount_ =>
      escrowId ← createEscrow env buyer_ seller_ amount_; mret (RetEscrowId escrowId)
  | FundEscrow escrowId => fundEscrow env escrowId;; mret RetUnit
  | ReleaseFunds escrowId => releaseFunds env escrowId;; mret RetUnit
  | AutoRelease escrowId => autoRelease env escrowId;; mret RetUnit
  | RaiseDispute escrowId => raiseDispute env escrowId;; mret RetUnit
  | ResolveDispute escrowId buyerPercentage =>
      resolveDispute env escrowId buyerPercentage;; mret RetUnit
  | UpdatePlatformFee newFeeBps => updatePlatformFee env newFeeBps;; mret RetUnit
  | UpdateFeeCollector newCollector => updateFeeCollector env newCollector;; mret RetUnit
  | GetEscrow escrowId => v ← getEscrow escrowId; mret (RetEscrow v)
  | RenounceOwnership => renounceOwnership env;; mret RetUnit
  | TransferOwnership newOwner => transferOwnership env newOwner;; mret RetUnit
  end.

(** A transaction: the call runs on the current state with an empty log. *)
Definition call (s : State) (env : Env) (c : Call) : Outcome RetVal :=
  dispatch env c s [].

(** The state a call leaves behind: its final state, or the state it
    started from when it reverts. *)
Definition state_after {A} (s : State) (o : Outcome A) : State :=
  match o with
  | Success _ s' _ => s'
  | Reverted _ _ => s
  end.

Definition effects {A} (o : Outcome A) : list Effect :=
  match o with
  | Success _ _ log => log
  | Reverted _ log => log
  end.

Definition exec (s : State) (env : Env) (c : Call) : State :=
  state_after s (call s env c).

(** A real transaction is never sent by [address(0)]. *)
Definition valid_env (env : Env) : Prop := msg_sender env <> address0.

Definition run (s : State) (txs : list (Env * Call)) : State :=
  foldl (fun st tx => exec st (fst tx) (snd tx)) s txs.

Definition valid_txs (txs : list (Env * Call)) : Prop :=
  Forall (fun tx => valid_env (fst tx)) txs.

(** The states the contract can be in: it is deployed, then called; between
    calls, anything may happen to the token. *)
Inductive reachable : State -> Prop :=
| reach_deploy env this_ tok usdc collector s :
    constructor env this_ tok usdc collector = inr s -> reachable s
| reach_call s env c :
    reachable s -> valid_env env -> reachable (exec s env c)
| reach_token s tok :
    reachable s -> reachable (set_token tok s).

(** What holds of every reachable state: the fee is at most 10%, the fee
    collector is set, every record is well-formed. *)
Definition state_inv (s : State) : Prop :=
  platformFeeBps s <= 1000 /\ feeCollector s <> address0 /\
  forall id, escrow_inv (escrow_at s id).

(** The guards under which a call can write to the record [id]: one
    constructor per function that writes to a record, with the tests that
    function makes on the caller, the record and the clock. *)
Inductive may_change (s : State) (env : Env) (id : bytes32) : Call -> Prop :=
| change_create buyer_ seller_ amount_ :
    id = escrowIdOf buyer_ seller_ amount_ (block_timestamp env) (block_number env) ->
    buyer (escrow_at s id) = address0 ->
    may_change s env id (CreateEscrow buyer_ seller_ amount_)
| change_fund :
    status (escrow_at s id) = CREATED ->
    msg_sender env = buyer (escrow_at s id) ->
    may_change s env id (FundEscrow id)
| change_release :
    status (escrow_at s id) = FUNDED ->
    msg_sender env = buyer (escrow_at s id) ->
    may_change s env id (ReleaseFunds id)
| change_autoRelease :
    status (escrow_at s id) = FUNDED ->
    autoReleaseTime (escrow_at s id) <= block_timestamp env ->
    may_change s env id (AutoRelease id)
| change_dispute :
    status (escrow_at s id) = FUNDED ->
    msg_sender env = buyer (escrow_at s id) \/ msg_sender env = seller (escrow_at s id) ->
    may_change s env id (RaiseDispute id)
| change_resolve buyerPercentage :
    status (escrow_at s id) = DISPUTED ->
    owner s = msg_sender env ->
    buyerPercentage <= 100 ->
    may_change s env id (ResolveDispute id buyerPercentage).

End Contract.

Arguments Success {Token A} a s log.
Arguments Reverted {Token A} e log.

(** ** A token and a scenario for the examples *)

(** A plain ERC-20 ledger in the style of OpenZeppelin's [ERC20]: balances
    and allowances, a transfer reverts when the funds or the allowance are
    short or the recipient is [address(0)], and returns [true] otherwise.
    It is only used to run the contract on concrete inputs. *)
Record Ledger := mkLedger {
  balances : gmap address uint256;
  allowances : gmap (address * address) uint256
}.

Definition balanceOf (l : Ledger) (a : address) : uint256 :=
  default 0 (balances l !! a).

Definition allowance (l : Ledger) (holder spender : address) : uint256 :=
  default 0 (allowances l !! (holder, spender)).

Definition ledger_move (l : Ledger) (from to : address) (value : uint256)
    : gmap address uint256 :=
  let b := <[from := balanceOf l from - value]> (balances l) in
  <[to := default 0 (b !! to) + value]> b.

Definition ledger_transfer (l : Ledger) (caller to : address) (value : uint256)
    : option (bool * Ledger) :=
  if bool_decide (to <> address0) && bool_decide (value <= balanceOf l caller)
  then Some (true, mkLedger (ledger_move l caller to value) (allowances l))
  else None.

Definition ledger_transferFrom (l : Ledger) (caller from to : address)
    (value : uint256) : option (bool * Ledger) :=
  if bool_decide (to <> address0)
     && bool_decide (value <= allowance l from caller)
     && bool_decide (value <= balanceOf l from)
  then Some (true,
             mkLedger (ledger_move l from to value)
                      (<[(from, caller) := allowance l from caller - value]>
                         (allowances l)))
  else None.

#[global] Instance Ledger_IERC20 : IERC20 Ledger := {
  erc20_transfer := ledger_transfer;
  erc20_transferFrom := ledger_transferFrom
}.

(** A stand-in for the hash of [createEscrow] in the examples. *)
#[global] Instance sample_id : EscrowIdHash := fun b s a t n => b + s + a + t + n.

Module Scenario.

Definition deployer : address := 1.
Definition alice : address := 2.     (* the buyer *)
Definition bob : address := 3.       (* the seller *)
Definition collector : address := 4.
Definition escrowAddr : address := 5.
Definition usdcAddr : address := 6.

Definition at_time (who : address) (t : uint256) : Env := mkEnv who t 1.

(** Alice holds 5,000,000 units and has approved the escrow contract. *)
Definition ledger0 : Ledger :=
  mkLedger {[ alice := 5000000 ]} {[ (alice, escrowAddr) := 5000000 ]}.

Definition deployed : State (Token := Ledger) :=
  mkState escrowAddr usdcAddr ∅ 50 collector deployer ledger0.

(** The identifier [createEscrow] gives to Alice's escrow of 1,000,000
    units created at time 100 in block 1. *)
Definition id1 : bytes32 := sample_id alice bob 1000000 100 1.

Definition created : State := 
  run deployed [(at_time alice 100, CreateEscrow alice bob 1000000)].

Definition funded : State :=
  run created [(at_time alice 200, FundEscrow id1)].

Definition disputed : State :=
  run funded [(at_time bob 300, RaiseDispute id1)].

(** The same funded escrow after the owner has set the fee to zero. *)
Definition funded_nofee : State :=
  run funded [(at_time deployer 250, UpdatePlatformFee 0)].

(** The funded escrow released by Alice, and the disputed one resolved
    by the owner with 30% to the buyer. *)
Definition released : State :=
  run funded [(at_time alice 300, ReleaseFunds id1)].

Definition resolved : State :=
  run disputed [(at_time deployer 400, ResolveDispute id1 30)].

End Scenario.

(** A second scenario: Carol holds 2^255 units and escrows all of it for
    Bob.  At the default 50 bps the fee computation overflows. *)
Module Whale.

Definition carol : address := 7.

Definition fortune : uint256 := 2 ^ 255.

Definition ledger0 : Ledger :=
  mkLedger {[ carol := fortune ]} {[ (carol, Scenario.escrowAddr) := fortune ]}.

Definition deployed : State (Token := Ledger) :=
  mkState Scenario.escrowAddr Scenario.usdcAddr ∅ 50 Scenario.collector
          Scenario.deployer ledger0.

Definition id2 : bytes32 := sample_id carol Scenario.bob fortune 100 1.

Definition funded : State :=
  run deployed [(Scenario.at_time carol 100, CreateEscrow carol Scenario.bob fortune);
                (Scenario.at_time carol 200, FundEscrow id2)].

End Whale.

(** ** Further definitions for the properties of the whole contract *)

#[global] Instance Escrow_eq_dec : EqDecision Escrow.
Proof. solve_decision. Defined.

(** The [USDC.transferFrom] calls of a log, in order. *)
Fixpoint pulls (log : list Effect) : list (address * address * uint256) :=
  match log with
  | [] => []
  | CallTransferFrom from to value :: rest => (from, to, value) :: pulls rest
  | _ :: rest => pulls rest
  end.

(** The events of a log, in order. *)
Fixpoint events (log : list Effect) : list Event :=
  match log with
  | [] => []
  | Emit ev :: rest => ev :: events rest
  | _ :: rest => events rest
  end.

(** How [disputeRaisedBy] relates to the rest of a reachable record. *)
Definition initiator_inv (e : Escrow) : Prop :=
  (disputeRaised e = false -> disputeRaisedBy e = address0) /\
  (disputeRaised e = true ->
   disputeRaisedBy e <> address0 /\
   (disputeRaisedBy e = buyer e \/ disputeRaisedBy e = seller e)).

(** The value of a status on the wire: Solidity encodes an enum by the
    position of the member in its declaration. *)
Definition status_index (st : EscrowStatus) : N :=
  match st with
  | CREATED => 0
  | FUNDED => 1
  | COMPLETED => 2
  | DISPUTED => 3
  | REFUNDED => 4
  | CANCELLED => 5
  end.

Local Open Scope string_scope.

(** [BlockchainService.getStatusString]: [statuses[status] || 'UNKNOWN'].
    An index past the end of the array reads [undefined], and [||] replaces
    [undefined] (or an empty string) by ['UNKNOWN']. *)
Definition getStatusString (status : N) : string :=
  let statuses :=
    ["CREATED"; "FUNDED"; "COMPLETED"; "DISPUTED"; "REFUNDED"; "CANCELLED"] in
  match statuses !! N.to_nat status with
  | Some name => if bool_decide (name = "") then "UNKNOWN" else name
  | None => "UNKNOWN"
  end.

Local Close Scope string_scope.

(** * Proofs *)

Section Proofs.

Context {Token : Type} {erc20 : IERC20 Token} {hash : EscrowIdHash}.

Implicit Types (s : State (Token := Token)) (env : Env) (c : Call) (e : Escrow).

(** *** Symbolic execution of the monadic code *)

Ltac unfold_monad :=
  unfold onlyOwner, sload, sstore, supdate, checked_add, checked_sub, checked_mul,
    USDC_transfer, USDC_transferFrom, require, when, revert, gets, modify, emit,
    mbind, M_bind, mret, M_ret in *.

Ltac unfold_contract :=
  unfold exec, call, dispatch,
    createEscrow, fundEscrow, releaseFunds, autoRelease,
    raiseDispute, resolveDispute, updatePlatformFee, updateFeeCollector,
    getEscrow, renounceOwnership, transferOwnership, _completeEscrow in *.

(** One case split on the next test the code performs. *)
Ltac branch :=
  match goal with
  | |- context [bool_decide ?P] => destruct (bool_decide_reflect P)
  | |- context [erc20_transfer ?t ?a ?b ?v] =>
      destruct (erc20_transfer t a b v) as [[[] ?]|] eqn:?
  | |- context [erc20_transferFrom ?t ?a ?b ?d ?v] =>
      destruct (erc20_transferFrom t a b d v) as [[[] ?]|] eqn:?
  | |- context [negb (disputeRaised ?e)] => destruct (disputeRaised e) eqn:?
  end; cbn.

Lemma escrow_at_set_token s tok id :
  escrow_at (set_token tok s) id = escrow_at s id.
Proof. reflexivity. Qed.

Lemma escrow_at_set_escrows s (m : gmap bytes32 Escrow) id :
  escrow_at (set_escrows m s) id = m !!! id.
Proof. reflexivity. Qed.

(** Reads the records of the goal back in terms of the state the call
    started from. *)
Ltac read_records :=
  cbn;
  repeat first
    [ rewrite escrow_at_set_token
    | progress change (escrow_at (set_platformFeeBps ?x ?s) ?i) with (escrow_at s i)
    | progress change (escrow_at (set_feeCollector ?x ?s) ?i) with (escrow_at s i)
    | progress change (escrow_at (set_owner ?x ?s) ?i) with (escrow_at s i)
    | rewrite escrow_at_set_escrows
    | rewrite lookup_total_insert_eq
    | rewrite lookup_total_insert_ne by assumption
    | progress change (escrows ?s !!! ?i) with (escrow_at s i) ];
  cbn [buyer seller amount createdAt autoReleaseTime status disputeRaised
       disputeRaisedBy set_status set_disputeRaised set_disputeRaisedBy].

(** The same, after a split on whether [id] is the record the call wrote
    to. *)
Ltac read_back id :=
  try match goal with
      | |- context [<[?a := _]> _] =>
          let Heq := fresh "Heq" in
          destruct (decide (a = id)) as [Heq|]; [rewrite ?Heq in * |]
      end;
  read_records.

(** Every call moves every record by one step of the state machine. *)
Lemma exec_escrow_step s env c id :
  valid_env env -> escrow_step (escrow_at s id) (escrow_at (exec s env c) id).
Proof.
  intros Hsender. unfold valid_env in Hsender.
  destruct c; unfold_contract; unfold_monad; cbn.
  all: repeat (branch; try apply step_none).
  all: read_back id; try apply step_none.
  all: first [ by apply step_create | apply step_fund; congruence
             | by apply step_release | by apply step_dispute
             | by apply step_resolve ].
Qed.


(** *** Consequences of the state machine *)

Lemma escrow_inv_zero : escrow_inv zero_escrow.
Proof. split; cbn; done. Qed.

Lemma escrow_step_inv e e' : escrow_inv e -> escrow_step e e' -> escrow_inv e'.
Proof.
  intros [Hz Hp Ha Hd Hf Hdi Hfl [Hr1 Hr2]] Hstep.
  destruct Hstep; [by split | ..].
  all: destruct e as [b0 s0 a0 c0 t0 st0 d0 r0]; cbn in *; subst.
  all: split; cbn; try done; auto.
  all: unfold zero_escrow in *; intros; try destruct d0; intuition congruence.
Qed.

Lemma escrow_step_rank e e' :
  escrow_inv e -> escrow_step e e' -> (rank (status e) <= rank (status e'))%nat.
Proof.
  intros Hinv Hstep.
  destruct Hstep as [| ? ? ? ? Hb | Hst ? | Hst ? | ? Hst ? | Hst]; cbn; try lia.
  all: try (rewrite Hst; cbn; lia).
  rewrite (inv_unwritten _ Hinv) by done. cbn. lia.
Qed.

Lemma escrow_step_terminal e e' :
  escrow_inv e -> escrow_step e e' -> terminal (status e) = true -> status e' = status e.
Proof.
  intros Hinv Hstep Hterm.
  destruct Hstep as [| ? ? ? ? Hb | Hst ? | Hst ? | ? Hst ? | Hst]; cbn; try done.
  all: try (rewrite Hst in Hterm; done).
  rewrite (inv_unwritten _ Hinv) in Hterm by done. done.
Qed.

Lemma escrow_step_flag e e' :
  escrow_inv e -> escrow_step e e' -> disputeRaised e = true -> disputeRaised e' = true.
Proof.
  intros Hinv Hstep Hflag.
  destruct Hstep as [| ? ? ? ? Hb | Hst ? | Hst Hd | ? Hst Hd | Hst]; cbn; try done.
  rewrite (inv_unwritten _ Hinv) in Hflag by done. done.
Qed.

Lemma escrow_step_terms e e' :
  buyer e <> address0 -> escrow_step e e' -> same_terms e e'.
Proof. intros Hb Hstep. by destruct Hstep. Qed.


(** *** Invariants of the reachable states *)

Lemma exec_config s env c :
  platformFeeBps s <= 1000 -> feeCollector s <> address0 ->
  platformFeeBps (exec s env c) <= 1000 /\ feeCollector (exec s env c) <> address0.
Proof.
  intros Hfee Hcol.
  destruct c; unfold_contract; unfold_monad; cbn.
  all: repeat (branch; try (split; cbn; assumption)).
  all: split; cbn; assumption.
Qed.

Lemma exec_inv s env c : valid_env env -> state_inv s -> state_inv (exec s env c).
Proof.
  intros Henv (Hfee & Hcol & Hrec).
  destruct (exec_config s env c Hfee Hcol) as [? ?].
  split; [done | split; [done |]].
  intros id. eapply escrow_step_inv; [apply Hrec | by apply exec_escrow_step].
Qed.

Lemma reachable_inv s : reachable s -> state_inv s.
Proof.
  induction 1 as [env this_ tok usdc col s Hdeploy | s env c _ IH Henv | s tok _ IH].
  - unfold constructor in Hdeploy.
    repeat case_bool_decide; cbn in Hdeploy; try done.
    injection Hdeploy as <-. split; [done | split; [done |]].
    intros id. unfold escrow_at; cbn. rewrite lookup_total_empty.
    apply escrow_inv_zero.
  - by apply exec_inv.
  - exact IH.
Qed.

Lemma reachable_escrow_inv s id : reachable s -> escrow_inv (escrow_at s id).
Proof. intros Hs. by apply reachable_inv. Qed.

(** *** Sequences of transactions *)

Lemma run_cons s tx txs : run s (tx :: txs) = run (exec s tx.1 tx.2) txs.
Proof. reflexivity. Qed.

Lemma run_reachable s txs : reachable s -> valid_txs txs -> reachable (run s txs).
Proof.
  intros Hs Hv. revert s Hs.
  induction Hv as [| tx txs Htx _ IH]; intros s Hs; [done |].
  rewrite run_cons. apply IH. by apply reach_call.
Qed.

(** A property of records that single steps preserve is preserved by runs. *)
Lemma run_preserves (R : Escrow -> Escrow -> Prop) s txs id :
  (forall e, R e e) ->
  (forall e1 e2 e3, R e1 e2 -> R e2 e3 -> R e1 e3) ->
  (forall e e', escrow_inv e -> escrow_step e e' -> R e e') ->
  reachable s -> valid_txs txs ->
  R (escrow_at s id) (escrow_at (run s txs) id).
Proof.
  intros Hrefl Htrans Hstep Hs Hv. revert s Hs.
  induction Hv as [| tx txs Htx _ IH]; intros s Hs; [apply Hrefl |].
  rewrite run_cons. eapply Htrans.
  - apply Hstep; [by apply reachable_escrow_inv | by apply exec_escrow_step].
  - apply IH. by apply reach_call.
Qed.


(** *** Settlement *)

(** A share of at most the whole, rounded down, is at most the whole. *)
Lemma share_le (x part whole : N) :
  part <= whole -> x * part / whole <= x.
Proof.
  intros Hp. apply N.Div0.div_le_upper_bound.
  rewrite (N.mul_comm whole x). apply N.mul_le_mono_l. exact Hp.
Qed.


(** After the tests of a call have been split: a reverted branch cannot be
    the successful outcome assumed, a successful one gives its state and
    log. *)
Ltac outcome :=
  match goal with
  | |- Reverted _ _ = Success _ _ _ -> _ => discriminate
  | |- Success _ _ _ = Reverted _ _ -> _ => discriminate
  | |- Success _ _ _ = Success _ _ _ -> _ =>
      let Hc := fresh "Hc" in intros Hc; injection Hc; clear Hc; intros; subst
  end.


(** C3 (as amended): a dispute payout skips the buyer transfer when the
    buyer's amount is zero and skips the seller and fee transfers together
    when the seller's gross amount is zero, so [buyerShare = 100] pays the
    buyer only and [buyerShare = 0] does not pay the buyer.  A zero fee is
    not skipped: a single release always makes the seller and the
    fee-collector transfer, and a dispute payout makes both whenever the
    seller's gross amount is positive. *)
Theorem C3_zero_gross_amounts_are_skipped s env id :
  let e := escrow_at s id in
  (forall s' log,
      call s env (ResolveDispute id 100) = Success RetUnit s' log ->
      transfers log =
        if bool_decide (0 < amount e) then [(buyer e, amount e)] else []) /\
  (forall s' log,
      call s env (ResolveDispute id 0) = Success RetUnit s' log ->
      let fee := amount e * platformFeeBps s / 10000 in
      transfers log =
        if bool_decide (0 < amount e)
        then [(seller e, amount e - fee); (feeCollector s, fee)] else []) /\
  (forall c s' log,
      c = ReleaseFunds id \/ c = AutoRelease id ->
      call s env c = Success RetUnit s' log ->
      let fee := amount e * platformFeeBps s / 10000 in
      transfers log = [(seller e, amount e - fee); (feeCollector s, fee)]) /\
  (forall buyerShare s' log,
      call s env (ResolveDispute id buyerShare) = Success RetUnit s' log ->
      let sellerGross := amount e - amount e * buyerShare / 100 in
      let fee := sellerGross * platformFeeBps s / 10000 in
      0 < sellerGross ->
      exists paid_before,
        transfers log =
          paid_before ++ [(seller e, sellerGross - fee); (feeCollector s, fee)]).
Proof.
  intros e. subst e. repeat split.
  - intros s' log. unfold_contract; unfold_monad; cbn.
    repeat (branch; try outcome); cbn.
    all: rewrite ?N.div_mul in * by done; try done; lia.
  - intros s' log. unfold_contract; unfold_monad; cbn.
    repeat (branch; try outcome); cbn.
    all: rewrite ?N.mul_0_r, ?N.Div0.div_0_l, ?N.sub_0_r in *; try done; lia.
  - intros c s' log [-> | ->]; unfold_contract; unfold_monad; cbn.
    all: repeat (branch; try outcome); done.
  - intros buyerShare s' log. unfold_contract; unfold_monad; cbn.
    repeat (branch; try outcome); cbn.
    all: first [ lia | by eexists [_] | by exists [] ].
Qed.

(** C6: [createEscrow] succeeds only for two distinct non-null parties and
    a positive amount; if buyer = seller, a party is [address(0)] or the
    amount is zero, it reverts with an [InvalidInput] failure before
    anything is attempted, and the state (hence the escrow store) is
    unchanged. *)
Theorem C6_create_rejects_invalid_input s env buyer_ seller_ amount_ :
  (forall r s' log,
      call s env (CreateEscrow buyer_ seller_ amount_) = Success r s' log ->
      buyer_ <> address0 /\ seller_ <> address0 /\ buyer_ <> seller_ /\ 0 < amount_) /\
  (buyer_ = seller_ \/ buyer_ = address0 \/ seller_ = address0 \/ amount_ = 0 ->
   exists err,
     call s env (CreateEscrow buyer_ seller_ amount_) = Reverted err [] /\
     kind err = Some InvalidInput /\
     exec s env (CreateEscrow buyer_ seller_ amount_) = s /\
     escrows (exec s env (CreateEscrow buyer_ seller_ amount_)) = escrows s).
Proof.
  split.
  - intros r s' log. unfold_contract; unfold_monad; cbn.
    repeat (branch; try outcome); done.
  - intros Hbad. unfold_contract; unfold_monad; cbn.
    repeat branch; try (exfalso; lia).
    all: eexists; repeat split; reflexivity.
Qed.

(** C9: [releaseFunds] called on a funded escrow by anyone but its buyer
    reverts with an [Unauthorized] failure; no token call has been
    attempted and the state, with the record and its status, is as
    before. *)
Theorem C9_release_only_by_buyer s env id :
  status (escrow_at s id) = FUNDED ->
  msg_sender env <> buyer (escrow_at s id) ->
  call s env (ReleaseFunds id) = Reverted OnlyBuyerCanRelease [] /\
  kind OnlyBuyerCanRelease = Some Unauthorized /\
  transfers (effects (call s env (ReleaseFunds id))) = [] /\
  exec s env (ReleaseFunds id) = s /\
  escrow_at (exec s env (ReleaseFunds id)) id = escrow_at s id.
Proof.
  intros Hfunded Hcaller. unfold_contract; unfold_monad; cbn.
  repeat branch; done.
Qed.

Lemma written_record e :
  escrow_inv e -> status e <> CREATED -> buyer e <> address0 /\ 0 < amount e.
Proof.
  intros Hinv Hst.
  assert (buyer e <> address0) as Hb.
  { intros Hz. apply Hst. by rewrite (inv_unwritten _ Hinv Hz). }
  split; [done | by apply inv_amount].
Qed.

(** C8: on a disputed escrow and called by the owner, [resolveDispute]
    with [buyerShare = 0] behaves as the single release [_completeEscrow]
    does on the same state: the same payout calls in the same order (the
    seller receives [amount - fee] and the fee collector [fee] at the
    current rate, the buyer nothing), success in the same cases and the
    same final state.  With [buyerShare = 100] the only payout is the whole
    amount to the buyer. *)
Theorem C8_dispute_extremes s env id :
  reachable s ->
  status (escrow_at s id) = DISPUTED ->
  owner s = msg_sender env ->
  let e := escrow_at s id in
  let fee := amount e * platformFeeBps s / 10000 in
  transfers (effects (call s env (ResolveDispute id 0))) =
    transfers (effects (_completeEscrow id s [])) /\
  exec s env (ResolveDispute id 0) = state_after s (_completeEscrow id s []) /\
  (forall s',
      (exists log, call s env (ResolveDispute id 0) = Success RetUnit s' log) <->
      (exists log, _completeEscrow id s [] = Success () s' log)) /\
  (forall s' log,
      call s env (ResolveDispute id 0) = Success RetUnit s' log ->
      transfers log = [(seller e, amount e - fee); (feeCollector s, fee)]) /\
  (forall s' log,
      call s env (ResolveDispute id 100) = Success RetUnit s' log ->
      transfers log = [(buyer e, amount e)]).
Proof.
  intros Hs Hst Howner e fee. subst e fee.
  destruct (written_record (escrow_at s id)) as [_ Hamount];
    [by apply reachable_escrow_inv | by rewrite Hst |].
  repeat split.
  - unfold_contract; unfold_monad; cbn.
    repeat branch; cbn.
    all: rewrite ?N.mul_0_r, ?N.Div0.div_0_l, ?N.sub_0_r in *; try done; try lia.
    all: congruence.
  - unfold_contract; unfold_monad; cbn.
    repeat branch; cbn.
    all: rewrite ?N.mul_0_r, ?N.Div0.div_0_l, ?N.sub_0_r in *; try done; try lia.
    all: try congruence.
  - intros [log Hc]; revert Hc. unfold_contract; unfold_monad; cbn.
    repeat branch; cbn.
    all: rewrite ?N.mul_0_r, ?N.Div0.div_0_l, ?N.sub_0_r in *; try outcome.
    all: first [ lia | congruence | by simplify_eq; eexists ].
  - intros [log Hc]; revert Hc. unfold_contract; unfold_monad; cbn.
    repeat branch; cbn.
    all: rewrite ?N.mul_0_r, ?N.Div0.div_0_l, ?N.sub_0_r in *; try outcome.
    all: first [ lia | congruence | by simplify_eq; eexists ].
  - intros s' log. unfold_contract; unfold_monad; cbn.
    repeat (branch; try outcome); cbn.
    all: rewrite ?N.mul_0_r, ?N.Div0.div_0_l, ?N.sub_0_r in *; try done; lia.
  - intros s' log. unfold_contract; unfold_monad; cbn.
    repeat (branch; try outcome); cbn.
    all: rewrite ?N.div_mul in * by done; try done; lia.
Qed.

(** *** Lifecycle *)

(** C2 (as amended): a successful [resolveDispute] on a disputed escrow
    leaves the record [COMPLETED] with [disputeRaised] still true, and no
    sequence of calls ever clears [disputeRaised]: once true it stays
    true. *)
Theorem C2_dispute_flag_is_never_cleared s id :
  reachable s ->
  (forall env buyerPercentage s' log,
      status (escrow_at s id) = DISPUTED ->
      call s env (ResolveDispute id buyerPercentage) = Success RetUnit s' log ->
      status (escrow_at s' id) = COMPLETED /\
      disputeRaised (escrow_at s' id) = true) /\
  (forall txs,
      valid_txs txs ->
      disputeRaised (escrow_at s id) = true ->
      disputeRaised (escrow_at (run s txs) id) = true).
Proof.
  intros Hs. split.
  - intros env pct s' log Hst.
    pose proof (inv_disputed _ (reachable_escrow_inv s id Hs) Hst) as Hflag.
    unfold_contract; unfold_monad; cbn.
    repeat (branch; try outcome); read_records; done.
  - intros txs Hv.
    apply (run_preserves
             (fun e e' => disputeRaised e = true -> disputeRaised e' = true));
      try done.
    + intros e1 e2 e3 H12 H23 Hflag. auto.
    + intros e e' Hinv Hstep. by apply escrow_step_flag.
Qed.

(** C5: along every sequence of calls the status of a record never moves
    down in the order Created < Funded < {Completed, Disputed, Refunded,
    Cancelled}, a record that is Completed, Refunded or Cancelled keeps
    its status, and [fundEscrow] on a funded escrow reverts with an
    [InvalidState] failure and changes nothing. *)
Theorem C5_status_is_monotonic s id :
  reachable s ->
  (forall txs,
      valid_txs txs ->
      (rank (status (escrow_at s id)) <= rank (status (escrow_at (run s txs) id)))%nat /\
      (terminal (status (escrow_at s id)) = true ->
       status (escrow_at (run s txs) id) = status (escrow_at s id))) /\
  (forall env,
      status (escrow_at s id) = FUNDED ->
      call s env (FundEscrow id) = Reverted InvalidEscrowStatus [] /\
      kind InvalidEscrowStatus = Some InvalidState /\
      exec s env (FundEscrow id) = s).
Proof.
  intros Hs. split.
  - intros txs Hv.
    apply (run_preserves
             (fun e e' => (rank (status e) <= rank (status e'))%nat /\
                          (terminal (status e) = true -> status e' = status e)));
      try done.
    + intros e1 e2 e3 [Hr12 Ht12] [Hr23 Ht23]. split; [lia |].
      intros Ht. rewrite <- (Ht12 Ht). apply Ht23. by rewrite (Ht12 Ht).
    + intros e e' Hinv Hstep. split.
      * by apply escrow_step_rank.
      * by apply escrow_step_terminal.
  - intros env Hst. unfold_contract; unfold_monad; cbn.
    rewrite Hst. done.
Qed.


(** C10: in every reachable state a funded record has [disputeRaised =
    false], so [releaseFunds] and [autoRelease] never revert on their
    dispute guard; the flag is only ever set by [raiseDispute], which moves
    the record to [DISPUTED] in the same call, and no call takes a
    disputed record back to [FUNDED]. *)
Theorem C10_funded_is_undisputed s id :
  reachable s ->
  (status (escrow_at s id) = FUNDED -> disputeRaised (escrow_at s id) = false) /\
  (forall env log, call s env (ReleaseFunds id) <> Reverted DisputeIsActive log) /\
  (forall env log, call s env (AutoRelease id) <> Reverted DisputeIsActive log) /\
  (forall env c,
      valid_env env ->
      disputeRaised (escrow_at s id) = false ->
      disputeRaised (escrow_at (exec s env c) id) = true ->
      c = RaiseDispute id /\ status (escrow_at (exec s env c) id) = DISPUTED) /\
  (forall env c,
      valid_env env ->
      status (escrow_at s id) = DISPUTED ->
      status (escrow_at (exec s env c) id) <> FUNDED).
Proof.
  intros Hs. pose proof (reachable_escrow_inv s id Hs) as Hinv.
  pose proof (inv_funded _ Hinv) as Hfunded.
  split; [done |]. split; [| split; [| split]].
  - intros env log. unfold_contract; unfold_monad; cbn.
    repeat branch; try done. by specialize (Hfunded ltac:(assumption)).
  - intros env log. unfold_contract; unfold_monad; cbn.
    repeat branch; try done. by specialize (Hfunded ltac:(assumption)).
  - intros env c Henv. clear Hfunded Hinv.
    destruct c; unfold_contract; unfold_monad; cbn.
    all: repeat (branch; try congruence).
    all: read_back id; cbn; try congruence.
    all: first [ congruence | by intros _ _ ].
  - intros env c Henv Hst.
    pose proof (exec_escrow_step s env c id Henv) as Hstep.
    destruct Hstep as [| ? ? ? ? Hb | Hc ? | Hc ? | ? Hc ? | Hc]; cbn; try congruence.
Qed.

(** *** Lookup *)

(** C4 (as amended): no call of the contract fails with a [NotFound]
    failure, and [getEscrow] never fails at all; on an identifier that was
    never written it returns the all-zero record (null parties, zero
    amount and times, status [CREATED], flag false) and changes nothing.
    An escrow that was created is told apart by its fields: read back
    after a successful [createEscrow] it has a non-null buyer. *)
Theorem C4_unknown_id_reads_zero_record s env id :
  (forall err, kind err <> Some NotFound) /\
  (exists v, call s env (GetEscrow id) = Success (RetEscrow v) s []) /\
  (escrows s !! id = None ->
   call s env (GetEscrow id) =
     Success (RetEscrow (address0, address0, 0, 0, 0, CREATED, false)) s []) /\
  (forall env0 buyer_ seller_ amount_ s' log,
      call s env0 (CreateEscrow buyer_ seller_ amount_) = Success (RetEscrowId id) s' log ->
      buyer_ <> address0 /\
      call s' env (GetEscrow id) =
        Success (RetEscrow (buyer_, seller_, amount_, block_timestamp env0,
                            block_timestamp env0 + AUTO_RELEASE_PERIOD,
                            CREATED, false)) s' []).
Proof.
  split; [by intros [] | split; [by eexists | split]].
  - intros Hnone. unfold_contract; unfold_monad; cbn.
    unfold escrow_at. rewrite lookup_total_alt, Hnone. reflexivity.
  - intros env0 buyer_ seller_ amount_ s' log.
    unfold_contract; unfold_monad; cbn.
    repeat (branch; try outcome). read_records. done.
Qed.

(** * Further properties of the contract *)

(** *** createEscrow *)

(** X1: [createEscrow] with two distinct non-null parties, a positive
    amount, an identifier not in use and a timestamp that leaves room for
    the seven days succeeds: it returns the hash of its arguments and the
    block, stores under it a [CREATED], undisputed record with these terms
    and the deadline seven days ahead, emits [EscrowCreated] and nothing
    else, calls no token function, and leaves every other record and the
    configuration as they were. *)
Theorem X1_create_stores_the_record s env buyer_ seller_ amount_ :
  let id := escrowIdOf buyer_ seller_ amount_ (block_timestamp env) (block_number env) in
  let deadline := block_timestamp env + AUTO_RELEASE_PERIOD in
  buyer_ <> address0 -> seller_ <> address0 -> buyer_ <> seller_ -> 0 < amount_ ->
  buyer (escrow_at s id) = address0 ->
  deadline <= MAX_UINT256 ->
  exists s',
    call s env (CreateEscrow buyer_ seller_ amount_) =
      Success (RetEscrowId id) s'
        [Emit (EscrowCreated id buyer_ seller_ amount_ deadline)] /\
    escrow_at s' id =
      mkEscrow buyer_ seller_ amount_ (block_timestamp env) deadline
               CREATED false address0 /\
    (forall id', id' <> id -> escrow_at s' id' = escrow_at s id') /\
    platformFeeBps s' = platformFeeBps s /\ feeCollector s' = feeCollector s /\
    owner s' = owner s /\ token s' = token s.
Proof.
  intros id deadline Hb Hs Hbs Ha Hfree Hroom. subst id deadline.
  unfold_contract; unfold_monad; cbn.
  repeat (branch; try done).
  eexists. split; [reflexivity |]. split; [by read_records |].
  split; [| done].
  intros id' Hne. assert (escrowIdOf buyer_ seller_ amount_ (block_timestamp env)
                            (block_number env) <> id') by congruence.
  by read_records.
Qed.

(** What a successful [createEscrow] did. *)
Lemma create_success s env buyer_ seller_ amount_ r s' log :
  call s env (CreateEscrow buyer_ seller_ amount_) = Success r s' log ->
  let id := escrowIdOf buyer_ seller_ amount_ (block_timestamp env) (block_number env) in
  r = RetEscrowId id /\
  buyer_ <> address0 /\ seller_ <> address0 /\ buyer_ <> seller_ /\ 0 < amount_ /\
  buyer (escrow_at s id) = address0 /\
  s' = set_escrows
         (<[id := mkEscrow buyer_ seller_ amount_ (block_timestamp env)
                           (block_timestamp env + AUTO_RELEASE_PERIOD)
                           CREATED false address0]> (escrows s)) s.
Proof.
  unfold_contract; unfold_monad; cbn.
  repeat (branch; try outcome). done.
Qed.

(** X2: an identifier is used once.  After a successful [createEscrow],
    the same call in the same block reverts with "Escrow already exists";
    and in a reachable state no call changes the parties, the amount or
    the two timestamps of a record that exists. *)
Theorem X2_create_never_overwrites s env buyer_ seller_ amount_ id s' log :
  call s env (CreateEscrow buyer_ seller_ amount_) = Success (RetEscrowId id) s' log ->
  call s' env (CreateEscrow buyer_ seller_ amount_) = Reverted EscrowAlreadyExists [] /\
  kind EscrowAlreadyExists = Some AlreadyExists /\
  (forall env' c id',
      reachable s -> valid_env env' ->
      buyer (escrow_at s id') <> address0 ->
      same_terms (escrow_at s id') (escrow_at (exec s env' c) id')).
Proof.
  intros Hcall. split; [| split; [done |]].
  - destruct (create_success _ _ _ _ _ _ _ _ Hcall) as (_ & Hb & Hs & Hbs & Ha & _ & ->).
    clear Hcall. unfold_contract; unfold_monad; cbn.
    repeat (branch; try done).
    all: exfalso;
      match goal with
      | H : buyer (escrow_at (set_escrows _ _) _) = address0 |- _ => revert H
      end; by read_records.
  - intros env' c id' Hs Henv Hb.
    apply escrow_step_terms; [done | by apply exec_escrow_step].
Qed.

(** *** fundEscrow *)

(** X3: [fundEscrow] pulls exactly the escrow's amount from the caller.
    On a [CREATED] record and called by its buyer it makes the single token
    call [transferFrom(buyer, this, amount)]; if the token returns [true]
    the record becomes [FUNDED] with nothing else changed, and if the token
    returns [false] or reverts the call reverts and the state is as
    before. *)
Theorem X3_fund_pulls_the_amount s env id :
  let e := escrow_at s id in
  status e = CREATED -> msg_sender env = buyer e ->
  pulls (effects (call s env (FundEscrow id))) = [(buyer e, this s, amount e)] /\
  transfers (effects (call s env (FundEscrow id))) = [] /\
  (forall t',
      erc20_transferFrom (token s) (this s) (buyer e) (this s) (amount e) = Some (true, t') ->
      call s env (FundEscrow id) =
        Success RetUnit
          (set_escrows (<[id := set_status FUNDED e]> (escrows s)) (set_token t' s))
          [CallTransferFrom (buyer e) (this s) (amount e);
           Emit (EscrowFunded id (amount e))]) /\
  (forall t',
      erc20_transferFrom (token s) (this s) (buyer e) (this s) (amount e) = Some (false, t') ->
      call s env (FundEscrow id) =
        Reverted USDCTransferFailed [CallTransferFrom (buyer e) (this s) (amount e)] /\
      exec s env (FundEscrow id) = s) /\
  (erc20_transferFrom (token s) (this s) (buyer e) (this s) (amount e) = None ->
   call s env (FundEscrow id) =
     Reverted TokenReverted [CallTransferFrom (buyer e) (this s) (amount e)] /\
   exec s env (FundEscrow id) = s).
Proof.
  intros e Hst Hcaller. subst e.
  unfold_contract; unfold_monad; cbn.
  rewrite Hst, Hcaller; cbn.
  repeat (branch; try done).
  all: repeat split; try done; intros; simplify_eq; try done.
  by read_records.
Qed.

(** X4: funding an identifier that was never created does not fail as
    unknown: the unwritten slot reads as a [CREATED] record with a null
    buyer, so the call passes the status test and reverts with "Only buyer
    can fund", before any token call. *)
Theorem X4_fund_unknown_id s env id :
  valid_env env ->
  escrows s !! id = None ->
  call s env (FundEscrow id) = Reverted OnlyBuyerCanFund [] /\
  kind OnlyBuyerCanFund = Some Unauthorized /\
  exec s env (FundEscrow id) = s.
Proof.
  intros Henv Hnone.
  assert (escrow_at s id = zero_escrow) as Hzero
    by (unfold escrow_at; by rewrite lookup_total_alt, Hnone).
  unfold_contract; unfold_monad; cbn. rewrite Hzero; cbn.
  by destruct (bool_decide_reflect (msg_sender env = address0)).
Qed.

(** *** raiseDispute *)

(** X5: on a funded, undisputed escrow [raiseDispute] by the buyer or the
    seller succeeds without any token call: it emits [DisputeRaised] and
    the record becomes [DISPUTED], flagged, with the caller recorded as the
    initiator; by anyone else it reverts with "Only buyer or seller can
    dispute" and nothing changes. *)
Theorem X5_dispute_by_a_party s env id :
  let e := escrow_at s id in
  status e = FUNDED -> disputeRaised e = false ->
  (msg_sender env = buyer e \/ msg_sender env = seller e ->
   call s env (RaiseDispute id) =
     Success RetUnit
       (set_escrows
          (<[id := mkEscrow (buyer e) (seller e) (amount e) (createdAt e)
                            (autoReleaseTime e) DISPUTED true (msg_sender env)]>
             (escrows s)) s)
       [Emit (DisputeRaised id (msg_sender env))]) /\
  (msg_sender env <> buyer e -> msg_sender env <> seller e ->
   call s env (RaiseDispute id) = Reverted OnlyBuyerOrSellerCanDispute [] /\
   kind OnlyBuyerOrSellerCanDispute = Some Unauthorized /\
   exec s env (RaiseDispute id) = s).
Proof.
  intros e Hst Hflag. subst e. split.
  - intros Hparty. unfold_contract; unfold_monad; cbn.
    rewrite Hst, Hflag; cbn.
    repeat (branch; try done); try (exfalso; destruct Hparty; congruence).
    all: read_records; rewrite !insert_insert_eq; reflexivity.
  - intros Hb Hs. unfold_contract; unfold_monad; cbn.
    rewrite Hst; cbn. repeat (branch; try done).
Qed.

(** X6: a dispute is raised once.  In every reachable state a call of
    [raiseDispute] never fails on its "Dispute already raised" test, and
    on a disputed escrow it reverts with "Escrow not funded", whoever
    calls. *)
Theorem X6_dispute_raised_once s env id :
  reachable s ->
  (forall log, call s env (RaiseDispute id) <> Reverted DisputeAlreadyRaised log) /\
  (status (escrow_at s id) = DISPUTED ->
   call s env (RaiseDispute id) = Reverted EscrowNotFunded [] /\
   kind EscrowNotFunded = Some InvalidState /\
   exec s env (RaiseDispute id) = s).
Proof.
  intros Hs. pose proof (inv_funded _ (reachable_escrow_inv s id Hs)) as Hfunded.
  split.
  - intros log. unfold_contract; unfold_monad; cbn.
    repeat branch; try done.
    all: by specialize (Hfunded ltac:(assumption)).
  - intros Hst. unfold_contract; unfold_monad; cbn. by rewrite Hst.
Qed.

(** One call keeps the initiator consistent with the flag. *)
Lemma exec_initiator s env c id :
  valid_env env ->
  initiator_inv (escrow_at s id) -> initiator_inv (escrow_at (exec s env c) id).
Proof.
  intros Henv. unfold valid_env in Henv. unfold initiator_inv.
  destruct c; unfold_contract; unfold_monad; cbn.
  all: repeat (branch; try done).
  all: read_back id; cbn; try done.
  all: intros _; split; [done | intros _; split; [done | by auto]].
Qed.

(** X7: in every reachable state the initiator of a dispute is recorded
    exactly when the dispute flag is set: an unflagged record has a null
    [disputeRaisedBy], and a flagged one (in particular every [DISPUTED]
    record) names its buyer or its seller, never [address(0)]. *)
Theorem X7_initiator_is_a_party s id :
  reachable s ->
  initiator_inv (escrow_at s id) /\
  (status (escrow_at s id) = DISPUTED ->
   disputeRaisedBy (escrow_at s id) <> address0 /\
   (disputeRaisedBy (escrow_at s id) = buyer (escrow_at s id) \/
    disputeRaisedBy (escrow_at s id) = seller (escrow_at s id))).
Proof.
  intros Hs.
  assert (initiator_inv (escrow_at s id)) as Hinit.
  { induction Hs as [env this_ tok usdc col s Hdeploy | s env c Hs IH Henv | s tok _ IH].
    - unfold constructor in Hdeploy.
      repeat case_bool_decide; cbn in Hdeploy; try done.
      injection Hdeploy as <-. unfold escrow_at; cbn.
      rewrite lookup_total_empty. by split.
    - by apply exec_initiator.
    - exact IH. }
  split; [exact Hinit |].
  intros Hst. apply Hinit.
  by apply (inv_disputed _ (reachable_escrow_inv s id Hs)).
Qed.

(** *** Who can change a record *)

Lemma exec_guarded s env c id :
  escrow_at (exec s env c) id <> escrow_at s id -> may_change s env id c.
Proof.
  destruct c; unfold_contract; unfold_monad; cbn.
  all: repeat (branch; try done).
  all: read_back id; try done.
  all: intros _.
  - by apply change_create.
  - by apply change_fund.
  - by apply change_release.
  - by apply change_autoRelease.
  - apply change_dispute; auto.
  - apply change_dispute; auto.
  - by apply change_resolve.
  - by apply change_resolve.
  - by apply change_resolve.
  - by apply change_resolve.
Qed.

(** X8: a call changes the record [id] only under the guards of the
    function that writes it: [createEscrow] when [id] is the hash of its
    arguments and the slot is free, [fundEscrow] and [releaseFunds] by the
    buyer, [autoRelease] by anyone once the deadline has passed,
    [raiseDispute] by the buyer or the seller, [resolveDispute] by the
    owner with a percentage of at most 100, each in the status it
    requires.  No other call, and no call aimed at another identifier,
    changes it. *)
Theorem X8_changes_are_guarded s env c id :
  escrow_at (exec s env c) id <> escrow_at s id -> may_change s env id c.
Proof. apply exec_guarded. Qed.

(** X9: a completed escrow is final and pays nothing more.  On a
    [COMPLETED] record each of [fundEscrow], [releaseFunds], [autoRelease],
    [raiseDispute] and [resolveDispute] reverts before any token call, on
    its status test or, for [resolveDispute] by a non-owner, on the owner
    test; and in a reachable state no call at all changes the record. *)
Theorem X9_completed_is_final s env id :
  status (escrow_at s id) = COMPLETED ->
  (forall c,
      c = FundEscrow id \/ c = ReleaseFunds id \/ c = AutoRelease id \/
      c = RaiseDispute id \/ (exists p, c = ResolveDispute id p) ->
      exists err,
        call s env c = Reverted err [] /\
        (kind err = Some InvalidState \/ err = CallerIsNotTheOwner)) /\
  (forall c, reachable s -> escrow_at (exec s env c) id = escrow_at s id).
Proof.
  intros Hst. split.
  - intros c Hc.
    destruct Hc as [-> | [-> | [-> | [-> | [p ->]]]]];
      unfold_contract; unfold_monad; cbn; rewrite ?Hst; cbn.
    all: repeat (branch; try done; try congruence).
    all: eexists; split; try reflexivity; auto.
  - intros c Hs.
    destruct (decide (escrow_at (exec s env c) id = escrow_at s id)) as [| Hne];
      [done | exfalso].
    pose proof (reachable_escrow_inv s id Hs) as Hinv.
    destruct (exec_guarded s env c id Hne); try congruence.
    assert (escrow_at s id = zero_escrow) as Hz by (by apply inv_unwritten).
    by rewrite Hz in Hst.
Qed.

(** *** Configuration *)

(** X10: the fee rate is the owner's to set and never exceeds 10%.
    [updatePlatformFee] by the owner with at most 1000 bps stores the new
    rate and touches nothing else; above 1000 it reverts with "Fee too
    high".  No other call, and no call by anyone else, changes the rate,
    and in every reachable state the rate is at most 1000 bps. *)
Theorem X10_fee_rate_is_bounded s env newFeeBps :
  (owner s = msg_sender env -> newFeeBps <= 1000 ->
   call s env (UpdatePlatformFee newFeeBps) =
     Success RetUnit (set_platformFeeBps newFeeBps s) []) /\
  (owner s = msg_sender env -> 1000 < newFeeBps ->
   call s env (UpdatePlatformFee newFeeBps) = Reverted FeeTooHigh [] /\
   kind FeeTooHigh = Some ConfigurationRejected) /\
  (forall c,
      platformFeeBps (exec s env c) <> platformFeeBps s ->
      c = UpdatePlatformFee (platformFeeBps (exec s env c)) /\
      owner s = msg_sender env) /\
  (reachable s -> platformFeeBps s <= 1000).
Proof.
  split; [| split; [| split]].
  - intros Howner Hle. unfold_contract; unfold_monad; cbn.
    repeat (branch; try done).
  - intros Howner Hgt. unfold_contract; unfold_monad; cbn.
    repeat (branch; try done). lia.
  - intros c. destruct c; unfold_contract; unfold_monad; cbn.
    all: repeat (branch; try done).
    all: done.
  - intros Hs. by destruct (reachable_inv s Hs).
Qed.

(** X11: the fee collector is the owner's to set and is never null.
    [updateFeeCollector] by the owner with a non-null address stores it and
    touches nothing else; with [address(0)] it reverts with "Invalid
    address".  No other call, and no call by anyone else, changes the
    collector, and in every reachable state it is not [address(0)]. *)
Theorem X11_fee_collector_is_set s env newCollector :
  (owner s = msg_sender env -> newCollector <> address0 ->
   call s env (UpdateFeeCollector newCollector) =
     Success RetUnit (set_feeCollector newCollector s) []) /\
  (owner s = msg_sender env -> newCollector = address0 ->
   call s env (UpdateFeeCollector newCollector) = Reverted InvalidAddress [] /\
   kind InvalidAddress = Some InvalidInput) /\
  (forall c,
      feeCollector (exec s env c) <> feeCollector s ->
      c = UpdateFeeCollector (feeCollector (exec s env c)) /\
      owner s = msg_sender env) /\
  (reachable s -> feeCollector s <> address0).
Proof.
  split; [| split; [| split]].
  - intros Howner Hne. unfold_contract; unfold_monad; cbn.
    repeat (branch; try done).
  - intros Howner ->. unfold_contract; unfold_monad; cbn.
    repeat (branch; try done).
  - intros c. destruct c; unfold_contract; unfold_monad; cbn.
    all: repeat (branch; try done).
    all: done.
  - intros Hs. by destruct (reachable_inv s Hs) as (_ & ? & _).
Qed.

(** A fee of at most 1000 bps, rounded down, is at most a tenth. *)
Lemma fee_le_tenth (x bps : N) : bps <= 1000 -> x * bps / 10000 <= x / 10.
Proof.
  intros Hbps.
  replace (x / 10) with (x * 1000 / (10 * 1000))
    by (apply N.Div0.div_mul_cancel_r; lia).
  apply N.Div0.div_le_mono. by apply N.mul_le_mono_l.
Qed.

(** The payout calls of a successful single release. *)
Lemma release_log s env id c s' log :
  c = ReleaseFunds id \/ c = AutoRelease id ->
  call s env c = Success RetUnit s' log ->
  let e := escrow_at s id in
  let fee := amount e * platformFeeBps s / 10000 in
  status e = FUNDED /\
  transfers log = [(seller e, amount e - fee); (feeCollector s, fee)].
Proof.
  intros [-> | ->]; unfold_contract; unfold_monad; cbn.
  all: repeat (branch; try outcome); done.
Qed.

(** The last payout calls of a successful dispute payout that leaves the
    seller a share. *)
Lemma dispute_log s env id buyerPercentage s' log :
  call s env (ResolveDispute id buyerPercentage) = Success RetUnit s' log ->
  let e := escrow_at s id in
  let sellerGross := amount e - amount e * buyerPercentage / 100 in
  let fee := sellerGross * platformFeeBps s / 10000 in
  0 < sellerGross ->
  exists paid_before,
    transfers log =
      paid_before ++ [(seller e, sellerGross - fee); (feeCollector s, fee)].
Proof.
  unfold_contract; unfold_monad; cbn.
  repeat (branch; try outcome); cbn.
  all: first [ lia | by eexists [_] | by exists [] ].
Qed.

(** X12: the platform never keeps more than a tenth.  In a reachable state
    a successful release pays the fee collector at most [amount / 10] and
    the seller the rest, which is positive; a successful dispute payout
    with a positive seller share ends with the seller's net and a fee of at
    most a tenth of that share, which is also at most the fee of a plain
    release. *)
Theorem X12_fee_is_at_most_a_tenth s env id :
  reachable s ->
  let e := escrow_at s id in
  (forall c s' log,
      c = ReleaseFunds id \/ c = AutoRelease id ->
      call s env c = Success RetUnit s' log ->
      exists fee,
        transfers log = [(seller e, amount e - fee); (feeCollector s, fee)] /\
        fee <= amount e / 10 /\ 0 < amount e - fee) /\
  (forall buyerPercentage s' log,
      call s env (ResolveDispute id buyerPercentage) = Success RetUnit s' log ->
      let sellerGross := amount e - amount e * buyerPercentage / 100 in
      0 < sellerGross ->
      exists paid_before fee,
        transfers log =
          paid_before ++ [(seller e, sellerGross - fee); (feeCollector s, fee)] /\
        fee <= sellerGross / 10 /\
        fee <= amount e * platformFeeBps s / 10000 /\
        0 < sellerGross - fee).
Proof.
  intros Hs e. subst e.
  pose proof (reachable_inv s Hs) as (Hbps & _ & Hrec).
  assert (forall x, 0 < x -> 0 < x - x * platformFeeBps s / 10000) as Hpos.
  { intros x Hx. pose proof (fee_le_tenth x _ Hbps).
    assert (x / 10 < x) by (apply N.div_lt; lia). lia. }
  split.
  - intros c s' log Hc Hcall.
    destruct (release_log s env id c s' log Hc Hcall) as [Hst Hlog].
    destruct (written_record _ (Hrec id)) as [_ Hamount]; [by rewrite Hst |].
    eexists. split; [exact Hlog |]. split; [by apply fee_le_tenth | by apply Hpos].
  - intros pct s' log Hcall sellerGross Hgross.
    destruct (dispute_log s env id pct s' log Hcall Hgross) as [pre Hlog].
    exists pre. eexists. split; [exact Hlog |].
    split; [by apply fee_le_tenth |]. split; [| by apply Hpos].
    apply N.Div0.div_le_mono. apply N.mul_le_mono_r. apply N.le_sub_l.
Qed.

(** *** Release paths *)

(** X13: once the deadline has passed, [autoRelease] by anyone does what
    [releaseFunds] by the buyer does: the same token calls and the same
    final state, or the same revert; a successful [autoRelease] differs
    only by the [AutoReleaseExecuted] event it adds at the end of the
    log. *)
Theorem X13_auto_release_is_a_release s buyerEnv anyEnv id :
  msg_sender buyerEnv = buyer (escrow_at s id) ->
  autoReleaseTime (escrow_at s id) <= block_timestamp anyEnv ->
  match call s buyerEnv (ReleaseFunds id) with
  | Success r s' log =>
      call s anyEnv (AutoRelease id) =
        Success r s' (log ++ [Emit (AutoReleaseExecuted id)])
  | Reverted err log =>
      call s anyEnv (AutoRelease id) = Reverted err log
  end.
Proof.
  intros Hbuyer Hlate.
  unfold call, dispatch, releaseFunds, autoRelease.
  unfold sload, require, revert, gets, emit, mbind, M_bind, mret, M_ret; cbn.
  destruct (bool_decide_reflect (status (escrow_at s id) = FUNDED)); cbn; [| done].
  destruct (bool_decide_reflect (msg_sender buyerEnv = buyer (escrow_at s id)));
    cbn; [| done].
  destruct (bool_decide_reflect
              (autoReleaseTime (escrow_at s id) <= block_timestamp anyEnv));
    cbn; [| done].
  destruct (disputeRaised (escrow_at s id)); cbn; [done |].
  by destruct (_completeEscrow id s []).
Qed.

(** *** What the contract never does *)

(** X14: nothing is ever refunded or cancelled.  No reachable record has
    status [REFUNDED] or [CANCELLED], and no call, successful or not,
    emits [EscrowRefunded]. *)
Theorem X14_no_refund_no_cancel s env c id :
  (reachable s ->
   status (escrow_at s id) <> REFUNDED /\ status (escrow_at s id) <> CANCELLED) /\
  (forall escrowId value,
      ~ In (EscrowRefunded escrowId value) (events (effects (call s env c)))).
Proof.
  split.
  - intros Hs. apply inv_reserved. by apply reachable_escrow_inv.
  - intros escrowId value.
    destruct c; unfold_contract; unfold_monad; cbn.
    all: repeat (branch; try (cbn; intuition congruence)).
    all: cbn; intuition congruence.
Qed.

(** X15: the contract moves tokens only where the escrow says.  The only
    [transferFrom] it ever makes is the one of [fundEscrow], from the
    caller to the contract itself, for the escrow's amount; a [transfer]
    is only made by [releaseFunds], [autoRelease] or [resolveDispute], to
    the seller of that escrow or to the fee collector, or, in
    [resolveDispute] alone, to its buyer. *)
Theorem X15_token_calls_are_confined s env c :
  (forall from to value,
      In (from, to, value) (pulls (effects (call s env c))) ->
      exists id,
        c = FundEscrow id /\ from = msg_sender env /\ to = this s /\
        value = amount (escrow_at s id)) /\
  (forall to value,
      In (to, value) (transfers (effects (call s env c))) ->
      exists id,
        (c = ReleaseFunds id \/ c = AutoRelease id \/
         exists p, c = ResolveDispute id p) /\
        (to = seller (escrow_at s id) \/ to = feeCollector s \/
         to = buyer (escrow_at s id) /\ exists p, c = ResolveDispute id p)).
Proof.
  split.
  - intros from to value.
    destruct c; unfold_contract; unfold_monad; cbn.
    all: repeat (branch; try (cbn; intuition congruence)).
    all: cbn; try (intuition congruence).
    all: intros [Heq | []]; simplify_eq; by eexists.
  - intros to value.
    destruct c; unfold_contract; unfold_monad; cbn.
    all: repeat (branch; try (cbn; intuition congruence)).
    all: cbn; try (intuition congruence).
    all: intros Hin; eexists; split; [eauto 6 |].
    all: repeat (destruct Hin as [Hin | Hin]; [simplify_eq; eauto 6 |]); done.
Qed.

(** X16: an amount too large for the fee computation cannot be released.
    When [amount * platformFeeBps] exceeds [2^256 - 1], [releaseFunds] by
    the buyer and [autoRelease] after the deadline on the funded,
    undisputed escrow revert on the overflow before any token call, and
    the escrow stays funded. *)
Theorem X16_overflow_blocks_release s env id :
  let e := escrow_at s id in
  status e = FUNDED -> disputeRaised e = false ->
  MAX_UINT256 < amount e * platformFeeBps s ->
  (msg_sender env = buyer e ->
   call s env (ReleaseFunds id) = Reverted ArithmeticPanic [] /\
   exec s env (ReleaseFunds id) = s) /\
  (autoReleaseTime e <= block_timestamp env ->
   call s env (AutoRelease id) = Reverted ArithmeticPanic [] /\
   exec s env (AutoRelease id) = s).
Proof.
  intros e Hst Hflag Hover. subst e. split.
  - intros Hbuyer. unfold_contract; unfold_monad; cbn.
    rewrite Hst, Hflag; cbn. repeat (branch; try done); lia.
  - intros Hlate. unfold_contract; unfold_monad; cbn.
    rewrite Hst, Hflag; cbn. repeat (branch; try done); lia.
Qed.

(** *** Dispute resolution *)

(** X18: a dispute can always be resolved, the token and the arithmetic
    permitting.  In a reachable state, [resolveDispute] by the owner on a
    [DISPUTED] escrow with a percentage of at most 100 either succeeds,
    leaving the record [COMPLETED] with its terms unchanged, or fails on a
    token transfer or on the overflow of one of its two products; no guard
    of the contract stops it. *)
Theorem X18_dispute_resolves s env id buyerPercentage :
  reachable s ->
  let e := escrow_at s id in
  status e = DISPUTED -> owner s = msg_sender env -> buyerPercentage <= 100 ->
  (exists s' log,
      call s env (ResolveDispute id buyerPercentage) = Success RetUnit s' log /\
      escrow_at s' id = set_status COMPLETED e) \/
  (exists err log,
      call s env (ResolveDispute id buyerPercentage) = Reverted err log /\
      (kind err = Some TransferFailed \/
       err = ArithmeticPanic /\
       (MAX_UINT256 < amount e * buyerPercentage \/
        MAX_UINT256 <
          (amount e - amount e * buyerPercentage / 100) * platformFeeBps s))).
Proof.
  intros Hs e Hst Howner Hpct. subst e.
  pose proof (reachable_inv s Hs) as (Hbps & _ & _).
  pose proof (share_le (amount (escrow_at s id)) buyerPercentage 100 Hpct) as Hshare.
  assert (forall x, x * platformFeeBps s / 10000 <= x) as Hfee
    by (intros x; apply share_le; lia).
  unfold_contract; unfold_monad; cbn.
  repeat (branch; try done; try congruence; try lia).
  all: try (exfalso;
            match goal with
            | Hn : ~ (_ <= _) |- _ => apply Hn; first [apply Hfee | exact Hshare]
            end).
  all: first [ left; do 2 eexists; split; [reflexivity | by read_records]
             | right; do 2 eexists; split; [reflexivity |];
               first [ by left | right; split; [reflexivity | lia] ] ].
Qed.

(** *** Events *)

(** X19: the events of a payout.  A successful [releaseFunds] emits
    [EscrowCompleted] with the seller's net amount and the fee, the two
    values it transferred; [autoRelease] emits the same followed by
    [AutoReleaseExecuted]; [resolveDispute] emits [DisputeResolved] with
    the buyer's amount and the seller's share before the fee, two values
    that add up to the escrow's amount, and reports the fee in no event. *)
Theorem X19_events_of_a_payout s env id :
  let e := escrow_at s id in
  let fee := amount e * platformFeeBps s / 10000 in
  (forall s' log,
      call s env (ReleaseFunds id) = Success RetUnit s' log ->
      events log = [EscrowCompleted id (amount e - fee) fee] /\
      transfers log = [(seller e, amount e - fee); (feeCollector s, fee)]) /\
  (forall s' log,
      call s env (AutoRelease id) = Success RetUnit s' log ->
      events log = [EscrowCompleted id (amount e - fee) fee; AutoReleaseExecuted id]) /\
  (forall buyerPercentage s' log,
      call s env (ResolveDispute id buyerPercentage) = Success RetUnit s' log ->
      let buyerAmount := amount e * buyerPercentage / 100 in
      events log = [DisputeResolved id buyerAmount (amount e - buyerAmount)] /\
      buyerAmount + (amount e - buyerAmount) = amount e).
Proof.
  intros e fee. subst e fee. split; [| split].
  - intros s' log. unfold_contract; unfold_monad; cbn.
    repeat (branch; try outcome); done.
  - intros s' log. unfold_contract; unfold_monad; cbn.
    repeat (branch; try outcome); done.
  - intros pct s' log. unfold_contract; unfold_monad; cbn.
    repeat (branch; try outcome); cbn; split; try done; lia.
Qed.

(** *** Off-chain decoding of the status *)

(** X17: [getStatusString] decodes the contract's enum faithfully: each of
    the six statuses, sent as its position in the enum, gets a name of its
    own that is not ['UNKNOWN'], and every other number gets
    ['UNKNOWN']. *)
Theorem X17_status_names_are_distinct (st st' : EscrowStatus) (n : N) :
  getStatusString (status_index st) <> "UNKNOWN"%string /\
  (getStatusString (status_index st) = getStatusString (status_index st') ->
   st = st') /\
  (6 <= n -> getStatusString n = "UNKNOWN"%string) /\
  (n < 6 -> exists st0, n = status_index st0).
Proof.
  split; [by destruct st | split; [by destruct st, st' | split]].
  - intros Hn. unfold getStatusString.
    rewrite lookup_ge_None_2; [done | cbn; lia].
  - intros Hn.
    destruct (decide (n = 0)) as [-> |]; [by exists CREATED |].
    destruct (decide (n = 1)) as [-> |]; [by exists FUNDED |].
    destruct (decide (n = 2)) as [-> |]; [by exists COMPLETED |].
    destruct (decide (n = 3)) as [-> |]; [by exists DISPUTED |].
    destruct (decide (n = 4)) as [-> |]; [by exists REFUNDED |].
    destruct (decide (n = 5)) as [-> |]; [by exists CANCELLED | lia].
Qed.

End Proofs.

(** * The scenario: reachability, instances and counterexamples *)

Module Examples.

Import Scenario.

Ltac compute_it := vm_compute; first [ reflexivity | discriminate | done ].

Ltac valid_list := repeat constructor; compute_it.

Lemma deployed_reachable : reachable deployed.
Proof.
  apply (reach_deploy (at_time deployer 0) escrowAddr ledger0 usdcAddr collector).
  reflexivity.
Qed.

Lemma created_reachable : reachable created.
Proof. apply run_reachable; [apply deployed_reachable | valid_list]. Qed.

Lemma funded_reachable : reachable funded.
Proof. apply run_reachable; [apply created_reachable | valid_list]. Qed.

Lemma disputed_reachable : reachable disputed.
Proof. apply run_reachable; [apply funded_reachable | valid_list]. Qed.

Lemma funded_nofee_reachable : reachable funded_nofee.
Proof. apply run_reachable; [apply funded_reachable | valid_list]. Qed.

Lemma released_reachable : reachable released.
Proof. apply run_reachable; [apply funded_reachable | valid_list]. Qed.

(** The two payout scenarios of the specification. *)
Example release_scenario :
  transfers (effects (call funded (at_time alice 300) (ReleaseFunds id1))) =
    [(bob, 995000); (collector, 5000)].
Proof. reflexivity. Qed.

Example dispute_scenario :
  transfers (effects (call disputed (at_time deployer 400) (ResolveDispute id1 30))) =
    [(alice, 300000); (bob, 696500); (collector, 3500)].
Proof. reflexivity. Qed.

End Examples.

Import Scenario Examples.

(** ** Instances of the theorems *)


(** The disputed escrow is resolved, then Alice tries a release: the flag
    stays set. *)
Lemma C2_witness :
  reachable disputed /\
  status (escrow_at disputed id1) = DISPUTED /\
  (status (escrow_at resolved id1) = COMPLETED /\
   disputeRaised (escrow_at resolved id1) = true) /\
  disputeRaised
    (escrow_at (run disputed [(at_time deployer 400, ResolveDispute id1 30);
                              (at_time alice 500, ReleaseFunds id1)]) id1) = true.
Proof.
  pose proof disputed_reachable as Hs.
  destruct (C2_dispute_flag_is_never_cleared disputed id1 Hs) as [Hresolve Hkeep].
  split; [exact Hs | split; [compute_it | split]].
  - apply (Hresolve (at_time deployer 400) 30 resolved
             (effects (call disputed (at_time deployer 400) (ResolveDispute id1 30))));
      compute_it.
  - apply Hkeep; [valid_list | compute_it].
Defined.

(** Resolving the disputed escrow entirely for the buyer, entirely for the
    seller, and releasing the funded one. *)
Lemma C3_witness :
  transfers (effects (call disputed (at_time deployer 400) (ResolveDispute id1 100))) =
    [(alice, 1000000)] /\
  transfers (effects (call disputed (at_time deployer 400) (ResolveDispute id1 0))) =
    [(bob, 995000); (collector, 5000)] /\
  transfers (effects (call funded (at_time alice 300) (ReleaseFunds id1))) =
    [(bob, 995000); (collector, 5000)].
Proof.
  destruct (C3_zero_gross_amounts_are_skipped disputed (at_time deployer 400) id1)
    as (Hall & Hnone & _ & _).
  destruct (C3_zero_gross_amounts_are_skipped funded (at_time alice 300) id1)
    as (_ & _ & Hrelease & _).
  split; [| split].
  - apply (Hall (exec disputed (at_time deployer 400) (ResolveDispute id1 100))).
    compute_it.
  - apply (Hnone (exec disputed (at_time deployer 400) (ResolveDispute id1 0))).
    compute_it.
  - apply (Hrelease (ReleaseFunds id1) released); [by left | compute_it].
Defined.

(** Identifier 7 was never created; [id1] has been. *)
Lemma C4_witness :
  escrows deployed !! 7 = None /\
  call deployed (at_time alice 100) (GetEscrow 7) =
    Success (RetEscrow (0, 0, 0, 0, 0, CREATED, false)) deployed [] /\
  call created (at_time bob 150) (GetEscrow id1) =
    Success (RetEscrow (alice, bob, 1000000, 100, 604900, CREATED, false)) created [].
Proof.
  split; [compute_it | split].
  - destruct (C4_unknown_id_reads_zero_record deployed (at_time alice 100) 7)
      as (_ & _ & Hzero & _).
    apply Hzero. compute_it.
  - destruct (C4_unknown_id_reads_zero_record deployed (at_time bob 150) id1)
      as (_ & _ & _ & Hcreated).
    apply (Hcreated (at_time alice 100) alice bob 1000000 created
             (effects (call deployed (at_time alice 100) (CreateEscrow alice bob 1000000)))).
    compute_it.
Defined.

(** From creation to resolution the status only moves up; once released
    it stays; funding twice is refused. *)
Lemma C5_witness :
  reachable created /\
  (rank (status (escrow_at created id1)) <=
   rank (status (escrow_at (run created [(at_time alice 200, FundEscrow id1);
                                         (at_time bob 300, RaiseDispute id1);
                                         (at_time deployer 400, ResolveDispute id1 30)])
                           id1)))%nat /\
  status (escrow_at (run released [(at_time alice 700, FundEscrow id1);
                                   (at_time bob 800, RaiseDispute id1)]) id1) =
    COMPLETED /\
  call funded (at_time alice 250) (FundEscrow id1) = Reverted InvalidEscrowStatus [] /\
  exec funded (at_time alice 250) (FundEscrow id1) = funded.
Proof.
  split; [apply created_reachable | split; [| split]].
  - destruct (C5_status_is_monotonic created id1 created_reachable) as [Hmono _].
    apply Hmono. valid_list.
  - destruct (C5_status_is_monotonic released id1 released_reachable) as [Hmono _].
    apply (Hmono [(at_time alice 700, FundEscrow id1); (at_time bob 800, RaiseDispute id1)]);
      [valid_list | compute_it].
  - destruct (C5_status_is_monotonic funded id1 funded_reachable) as [_ Hfund].
    destruct (Hfund (at_time alice 250)) as (Hcall & _ & Hexec); [compute_it |].
    split; [exact Hcall | exact Hexec].
Defined.

(** Bob creates nothing by naming himself on both sides, nor with a null
    party or a zero amount; Alice's creation is valid. *)
Lemma C6_witness :
  (exists err,
      call deployed (at_time bob 100) (CreateEscrow bob bob 5) = Reverted err [] /\
      kind err = Some InvalidInput /\
      exec deployed (at_time bob 100) (CreateEscrow bob bob 5) = deployed /\
      escrows (exec deployed (at_time bob 100) (CreateEscrow bob bob 5)) =
        escrows deployed) /\
  (exists err,
      call deployed (at_time bob 100) (CreateEscrow alice bob 0) = Reverted err [] /\
      kind err = Some InvalidInput /\
      exec deployed (at_time bob 100) (CreateEscrow alice bob 0) = deployed /\
      escrows (exec deployed (at_time bob 100) (CreateEscrow alice bob 0)) =
        escrows deployed) /\
  (alice <> address0 /\ bob <> address0 /\ alice <> bob /\ 0 < 1000000).
Proof.
  split; [| split].
  - apply (C6_create_rejects_invalid_input deployed (at_time bob 100) bob bob 5).
    by left.
  - apply (C6_create_rejects_invalid_input deployed (at_time bob 100) alice bob 0).
    by right; right; right.
  - apply (C6_create_rejects_invalid_input deployed (at_time alice 100) alice bob 1000000)
      with (r := RetEscrowId id1) (s' := created)
           (log := effects (call deployed (at_time alice 100)
                              (CreateEscrow alice bob 1000000))).
    compute_it.
Defined.


(** The owner resolves Alice's disputed escrow entirely for the seller,
    then entirely for the buyer. *)
Lemma C8_witness :
  reachable disputed /\
  status (escrow_at disputed id1) = DISPUTED /\
  owner disputed = msg_sender (at_time deployer 400) /\
  transfers (effects (call disputed (at_time deployer 400) (ResolveDispute id1 0))) =
    transfers (effects (_completeEscrow id1 disputed [])) /\
  exec disputed (at_time deployer 400) (ResolveDispute id1 0) =
    state_after disputed (_completeEscrow id1 disputed []) /\
  transfers (effects (call disputed (at_time deployer 400) (ResolveDispute id1 0))) =
    [(bob, 995000); (collector, 5000)] /\
  transfers (effects (call disputed (at_time deployer 400) (ResolveDispute id1 100))) =
    [(alice, 1000000)].
Proof.
  pose proof disputed_reachable as Hs.
  assert (status (escrow_at disputed id1) = DISPUTED) as Hst by compute_it.
  assert (owner disputed = msg_sender (at_time deployer 400)) as Howner by compute_it.
  destruct (C8_dispute_extremes disputed (at_time deployer 400) id1 Hs Hst Howner)
    as (Hsame & Hstate & _ & Hzero & Hall).
  do 5 (split; [assumption |]). split.
  - apply (Hzero (exec disputed (at_time deployer 400) (ResolveDispute id1 0))).
    compute_it.
  - apply (Hall (exec disputed (at_time deployer 400) (ResolveDispute id1 100))).
    compute_it.
Defined.

(** Bob, the seller, tries to release Alice's funded escrow. *)
Lemma C9_witness :
  status (escrow_at funded id1) = FUNDED /\
  msg_sender (at_time bob 300) <> buyer (escrow_at funded id1) /\
  call funded (at_time bob 300) (ReleaseFunds id1) = Reverted OnlyBuyerCanRelease [] /\
  exec funded (at_time bob 300) (ReleaseFunds id1) = funded.
Proof.
  assert (status (escrow_at funded id1) = FUNDED) as Hst by compute_it.
  assert (msg_sender (at_time bob 300) <> buyer (escrow_at funded id1)) as Hcaller
    by compute_it.
  destruct (C9_release_only_by_buyer funded (at_time bob 300) id1 Hst Hcaller)
    as (Hcall & _ & _ & Hexec & _).
  do 3 (split; [assumption |]). exact Hexec.
Defined.

(** Alice's funded escrow is undisputed; Bob's [raiseDispute] is what sets
    the flag, and a disputed escrow is not funded again by a second
    funding. *)
Lemma C10_witness :
  reachable funded /\
  disputeRaised (escrow_at funded id1) = false /\
  (RaiseDispute id1 = RaiseDispute id1 /\
   status (escrow_at (exec funded (at_time bob 300) (RaiseDispute id1)) id1) = DISPUTED) /\
  status (escrow_at (exec disputed (at_time alice 350) (FundEscrow id1)) id1) <> FUNDED.
Proof.
  pose proof funded_reachable as Hs.
  destruct (C10_funded_is_undisputed funded id1 Hs) as (Hflag & _ & _ & Hraise & _).
  destruct (C10_funded_is_undisputed disputed id1 disputed_reachable)
    as (_ & _ & _ & _ & Hstay).
  split; [exact Hs | split; [| split]].
  - apply Hflag. compute_it.
  - apply Hraise; compute_it.
  - apply Hstay; compute_it.
Defined.

(** ** Counterexamples to the claims as first stated *)

(** C2 as stated: [resolveDispute] would clear [disputeRaised].  After the
    owner resolves Alice's disputed escrow the record is [COMPLETED] and the
    flag is still set. *)
Lemma C2_counterexample :
  reachable disputed /\
  status (escrow_at disputed id1) = DISPUTED /\
  exists s' log,
    call disputed (at_time deployer 400) (ResolveDispute id1 30) =
      Success RetUnit s' log /\
    status (escrow_at s' id1) = COMPLETED /\
    disputeRaised (escrow_at s' id1) <> false.
Proof.
  split; [apply disputed_reachable | split; [compute_it |]].
  exists resolved,
    (effects (call disputed (at_time deployer 400) (ResolveDispute id1 30))).
  repeat split; compute_it.
Qed.




(** C3 as stated: with [feeBps = 0] no fee-collector transfer would be
    attempted.  With the fee set to zero, Alice's release calls
    [USDC.transfer(feeCollector, 0)]. *)
Lemma C3_counterexample :
  reachable funded_nofee /\
  platformFeeBps funded_nofee = 0 /\
  exists s',
    call funded_nofee (at_time alice 300) (ReleaseFunds id1) =
      Success RetUnit s'
        [CallTransfer bob 1000000; CallTransfer collector 0;
         Emit (EscrowCompleted id1 1000000 0)].
Proof.
  split; [apply funded_nofee_reachable | split; [compute_it |]].
  exists (exec funded_nofee (at_time alice 300) (ReleaseFunds id1)).
  compute_it.
Qed.

(** C4 as stated: looking up an identifier that was never created would
    fail with [NotFound].  On the freshly deployed contract [getEscrow(7)]
    succeeds and returns the all-zero record. *)
Lemma C4_counterexample :
  reachable deployed /\
  escrows deployed !! 7 = None /\
  call deployed (at_time alice 100) (GetEscrow 7) =
    Success (RetEscrow (0, 0, 0, 0, 0, CREATED, false)) deployed [].
Proof.
  split; [apply deployed_reachable | split; compute_it].
Qed.


(** ** Instances of the further properties *)

(** Alice's creation on the fresh contract. *)
Lemma X1_witness :
  exists s',
    call deployed (at_time alice 100) (CreateEscrow alice bob 1000000) =
      Success (RetEscrowId id1) s'
        [Emit (EscrowCreated id1 alice bob 1000000 (100 + AUTO_RELEASE_PERIOD))] /\
    escrow_at s' id1 =
      mkEscrow alice bob 1000000 100 (100 + AUTO_RELEASE_PERIOD) CREATED false address0.
Proof.
  destruct (X1_create_stores_the_record deployed (at_time alice 100) alice bob 1000000)
    as (s' & Hcall & Hrec & _); [compute_it | compute_it | compute_it | compute_it
                                 | compute_it | compute_it |].
  exists s'. split; [exact Hcall | exact Hrec].
Defined.

(** Alice sends the same creation twice in one block. *)
Lemma X2_witness :
  call created (at_time alice 100) (CreateEscrow alice bob 1000000) =
    Reverted EscrowAlreadyExists [] /\
  same_terms (escrow_at funded id1)
             (escrow_at (exec funded (at_time alice 300) (ReleaseFunds id1)) id1).
Proof.
  split.
  - apply (X2_create_never_overwrites deployed (at_time alice 100) alice bob 1000000
             id1 created
             (effects (call deployed (at_time alice 100) (CreateEscrow alice bob 1000000)))).
    compute_it.
  - destruct (X2_create_never_overwrites deployed (at_time alice 100) alice bob 1000000
                id1 created
                (effects (call deployed (at_time alice 100)
                            (CreateEscrow alice bob 1000000))))
      as (_ & _ & Hterms); [compute_it |].
    destruct (X2_create_never_overwrites funded (at_time alice 900) alice bob 5
                (sample_id alice bob 5 900 1)
                (exec funded (at_time alice 900) (CreateEscrow alice bob 5))
                (effects (call funded (at_time alice 900) (CreateEscrow alice bob 5))))
      as (_ & _ & Hkeep); [compute_it |].
    apply Hkeep; [apply funded_reachable | compute_it | compute_it].
Defined.

(** Alice funds her escrow: one pull of 1,000,000 from her to the
    contract. *)
Lemma X3_witness :
  status (escrow_at created id1) = CREATED /\
  msg_sender (at_time alice 200) = buyer (escrow_at created id1) /\
  pulls (effects (call created (at_time alice 200) (FundEscrow id1))) =
    [(alice, escrowAddr, 1000000)] /\
  transfers (effects (call created (at_time alice 200) (FundEscrow id1))) = [].
Proof.
  assert (status (escrow_at created id1) = CREATED) as Hst by compute_it.
  assert (msg_sender (at_time alice 200) = buyer (escrow_at created id1)) as Hcaller
    by compute_it.
  destruct (X3_fund_pulls_the_amount created (at_time alice 200) id1 Hst Hcaller)
    as (Hpull & Hnone & _).
  do 2 (split; [assumption |]). split; [exact Hpull | exact Hnone].
Defined.

(** Alice tries to fund identifier 7, which nobody created. *)
Lemma X4_witness :
  valid_env (at_time alice 200) /\ escrows deployed !! 7 = None /\
  call deployed (at_time alice 200) (FundEscrow 7) = Reverted OnlyBuyerCanFund [].
Proof.
  assert (valid_env (at_time alice 200)) as Henv by compute_it.
  assert (escrows deployed !! 7 = None) as Hnone by compute_it.
  destruct (X4_fund_unknown_id deployed (at_time alice 200) 7 Henv Hnone) as (Hcall & _).
  do 2 (split; [assumption |]). exact Hcall.
Defined.

(** Bob, the seller, disputes Alice's funded escrow; the fee collector
    may not. *)
Lemma X5_witness :
  status (escrow_at funded id1) = FUNDED /\
  disputeRaised (escrow_at funded id1) = false /\
  escrow_at (exec funded (at_time bob 300) (RaiseDispute id1)) id1 =
    mkEscrow alice bob 1000000 100 604900 DISPUTED true bob /\
  call funded (at_time collector 300) (RaiseDispute id1) =
    Reverted OnlyBuyerOrSellerCanDispute [].
Proof.
  assert (status (escrow_at funded id1) = FUNDED) as Hst by compute_it.
  assert (disputeRaised (escrow_at funded id1) = false) as Hflag by compute_it.
  destruct (X5_dispute_by_a_party funded (at_time bob 300) id1 Hst Hflag) as [Hparty _].
  destruct (X5_dispute_by_a_party funded (at_time collector 300) id1 Hst Hflag)
    as [_ Hother].
  do 2 (split; [assumption |]). split.
  - unfold exec. rewrite Hparty by (right; compute_it). compute_it.
  - apply Hother; compute_it.
Defined.

(** Alice tries to dispute the escrow Bob has already disputed. *)
Lemma X6_witness :
  reachable disputed /\ status (escrow_at disputed id1) = DISPUTED /\
  call disputed (at_time alice 350) (RaiseDispute id1) = Reverted EscrowNotFunded [].
Proof.
  destruct (X6_dispute_raised_once disputed (at_time alice 350) id1 disputed_reachable)
    as [_ Hsecond].
  split; [apply disputed_reachable | split; [compute_it |]].
  apply Hsecond. compute_it.
Defined.

(** The dispute on Alice's escrow names Bob, its seller. *)
Lemma X7_witness :
  reachable disputed /\ status (escrow_at disputed id1) = DISPUTED /\
  disputeRaisedBy (escrow_at disputed id1) <> address0 /\
  (disputeRaisedBy (escrow_at disputed id1) = buyer (escrow_at disputed id1) \/
   disputeRaisedBy (escrow_at disputed id1) = seller (escrow_at disputed id1)).
Proof.
  destruct (X7_initiator_is_a_party disputed id1 disputed_reachable) as [_ Hparty].
  split; [apply disputed_reachable | split; [compute_it |]].
  apply Hparty. compute_it.
Defined.

(** Alice's release changes her record, so it met the guards of
    [releaseFunds]. *)
Lemma X8_witness :
  escrow_at (exec funded (at_time alice 300) (ReleaseFunds id1)) id1 <>
    escrow_at funded id1 /\
  may_change funded (at_time alice 300) id1 (ReleaseFunds id1).
Proof.
  assert (escrow_at (exec funded (at_time alice 300) (ReleaseFunds id1)) id1 <>
          escrow_at funded id1) as Hchange by compute_it.
  split; [exact Hchange |].
  exact (X8_changes_are_guarded funded (at_time alice 300) (ReleaseFunds id1) id1 Hchange).
Defined.

(** After the release, a second release and a late dispute both fail and
    leave the record as it is. *)
Lemma X9_witness :
  status (escrow_at released id1) = COMPLETED /\
  (exists err,
      call released (at_time alice 400) (ReleaseFunds id1) = Reverted err [] /\
      (kind err = Some InvalidState \/ err = CallerIsNotTheOwner)) /\
  escrow_at (exec released (at_time bob 400) (RaiseDispute id1)) id1 =
    escrow_at released id1.
Proof.
  assert (status (escrow_at released id1) = COMPLETED) as Hst by compute_it.
  destruct (X9_completed_is_final released (at_time alice 400) id1 Hst) as [Hfail _].
  destruct (X9_completed_is_final released (at_time bob 400) id1 Hst) as [_ Hkeep].
  split; [exact Hst | split].
  - apply Hfail. right; by left.
  - apply Hkeep. apply released_reachable.
Defined.

(** The owner sets the fee to zero; 1001 bps is refused; Alice's release
    changes no fee. *)
Lemma X10_witness :
  call deployed (at_time deployer 50) (UpdatePlatformFee 0) =
    Success RetUnit (set_platformFeeBps 0 deployed) [] /\
  call deployed (at_time deployer 50) (UpdatePlatformFee 1001) =
    Reverted FeeTooHigh [] /\
  owner funded = msg_sender (at_time deployer 250) /\
  platformFeeBps funded <= 1000.
Proof.
  destruct (X10_fee_rate_is_bounded deployed (at_time deployer 50) 0) as (Hset & _).
  destruct (X10_fee_rate_is_bounded deployed (at_time deployer 50) 1001)
    as (_ & Hhigh & _).
  destruct (X10_fee_rate_is_bounded funded (at_time deployer 250) 0)
    as (_ & _ & Honly & Hbound).
  split; [| split; [| split]].
  - apply Hset; compute_it.
  - apply Hhigh; compute_it.
  - apply (Honly (UpdatePlatformFee 0)). compute_it.
  - apply Hbound. apply funded_reachable.
Defined.

(** The owner names Bob as the collector; [address(0)] is refused. *)
Lemma X11_witness :
  call deployed (at_time deployer 50) (UpdateFeeCollector bob) =
    Success RetUnit (set_feeCollector bob deployed) [] /\
  call deployed (at_time deployer 50) (UpdateFeeCollector address0) =
    Reverted InvalidAddress [] /\
  owner deployed = msg_sender (at_time deployer 50) /\
  feeCollector funded <> address0.
Proof.
  destruct (X11_fee_collector_is_set deployed (at_time deployer 50) bob)
    as (Hset & _ & Honly & _).
  destruct (X11_fee_collector_is_set deployed (at_time deployer 50) address0)
    as (_ & Hnull & _).
  destruct (X11_fee_collector_is_set funded (at_time deployer 50) bob)
    as (_ & _ & _ & Hreach).
  split; [| split; [| split]].
  - apply Hset; compute_it.
  - apply Hnull; compute_it.
  - apply (Honly (UpdateFeeCollector bob)). compute_it.
  - apply Hreach. apply funded_reachable.
Defined.

(** Alice's release at 50 bps and the 30% resolution. *)
Lemma X12_witness :
  reachable funded /\
  (exists fee,
      transfers (effects (call funded (at_time alice 300) (ReleaseFunds id1))) =
        [(seller (escrow_at funded id1), amount (escrow_at funded id1) - fee);
         (feeCollector funded, fee)] /\
      fee <= amount (escrow_at funded id1) / 10 /\
      0 < amount (escrow_at funded id1) - fee) /\
  (exists paid_before fee,
      transfers (effects (call disputed (at_time deployer 400) (ResolveDispute id1 30))) =
        paid_before ++ [(bob, 700000 - fee); (collector, fee)] /\
      fee <= 700000 / 10).
Proof.
  destruct (X12_fee_is_at_most_a_tenth funded (at_time alice 300) id1 funded_reachable)
    as [Hrelease _].
  destruct (X12_fee_is_at_most_a_tenth disputed (at_time deployer 400) id1
              disputed_reachable) as [_ Hdispute].
  split; [apply funded_reachable | split].
  - apply (Hrelease (ReleaseFunds id1) released); [by left | compute_it].
  - destruct (Hdispute 30 resolved
                (effects (call disputed (at_time deployer 400) (ResolveDispute id1 30))))
      as (pre & fee & Hlog & Hfee & _); [compute_it | compute_it |].
    exists pre, fee. split; [exact Hlog | exact Hfee].
Defined.

(** Bob auto-releases at the deadline what Alice could have released. *)
Lemma X13_witness :
  msg_sender (at_time alice 300) = buyer (escrow_at funded id1) /\
  autoReleaseTime (escrow_at funded id1) <= block_timestamp (at_time bob 604900) /\
  call funded (at_time bob 604900) (AutoRelease id1) =
    Success RetUnit released
      [CallTransfer bob 995000; CallTransfer collector 5000;
       Emit (EscrowCompleted id1 995000 5000); Emit (AutoReleaseExecuted id1)].
Proof.
  assert (msg_sender (at_time alice 300) = buyer (escrow_at funded id1)) as Hbuyer
    by compute_it.
  assert (autoReleaseTime (escrow_at funded id1) <= block_timestamp (at_time bob 604900))
    as Hlate by compute_it.
  pose proof (X13_auto_release_is_a_release funded (at_time alice 300)
                (at_time bob 604900) id1 Hbuyer Hlate) as Hsame.
  do 2 (split; [assumption |]).
  assert (call funded (at_time alice 300) (ReleaseFunds id1) =
          Success RetUnit released
            [CallTransfer bob 995000; CallTransfer collector 5000;
             Emit (EscrowCompleted id1 995000 5000)]) as Hrelease by compute_it.
  rewrite Hrelease in Hsame. exact Hsame.
Defined.

(** Alice's escrow, resolved, is neither refunded nor cancelled. *)
Lemma X14_witness :
  reachable funded /\
  status (escrow_at funded id1) <> REFUNDED /\
  status (escrow_at funded id1) <> CANCELLED.
Proof.
  destruct (X14_no_refund_no_cancel funded (at_time alice 300) (ReleaseFunds id1) id1)
    as [Hreach _].
  split; [apply funded_reachable | apply Hreach; apply funded_reachable].
Defined.

(** The pull of Alice's funding and the fee payout of her release. *)
Lemma X15_witness :
  (exists id,
      FundEscrow id1 = FundEscrow id /\ alice = msg_sender (at_time alice 200) /\
      escrowAddr = this created /\ 1000000 = amount (escrow_at created id)) /\
  (exists id,
      (ReleaseFunds id1 = ReleaseFunds id \/ ReleaseFunds id1 = AutoRelease id \/
       exists p, ReleaseFunds id1 = ResolveDispute id p) /\
      (collector = seller (escrow_at funded id) \/ collector = feeCollector funded \/
       collector = buyer (escrow_at funded id) /\
       exists p, ReleaseFunds id1 = ResolveDispute id p)).
Proof.
  destruct (X15_token_calls_are_confined created (at_time alice 200) (FundEscrow id1))
    as [Hpull _].
  destruct (X15_token_calls_are_confined funded (at_time alice 300) (ReleaseFunds id1))
    as [_ Hpay].
  split.
  - apply (Hpull alice escrowAddr 1000000). vm_compute. by left.
  - apply (Hpay collector 5000). vm_compute. right; by left.
Defined.

(** Carol's escrow of 2^255 units is funded and cannot be released at
    50 bps. *)
Lemma X16_witness :
  status (escrow_at Whale.funded Whale.id2) = FUNDED /\
  disputeRaised (escrow_at Whale.funded Whale.id2) = false /\
  MAX_UINT256 < amount (escrow_at Whale.funded Whale.id2) * platformFeeBps Whale.funded /\
  call Whale.funded (at_time Whale.carol 300) (ReleaseFunds Whale.id2) =
    Reverted ArithmeticPanic [] /\
  call Whale.funded (at_time bob 700000) (AutoRelease Whale.id2) =
    Reverted ArithmeticPanic [].
Proof.
  assert (status (escrow_at Whale.funded Whale.id2) = FUNDED) as Hst by compute_it.
  assert (disputeRaised (escrow_at Whale.funded Whale.id2) = false) as Hflag
    by compute_it.
  assert (MAX_UINT256 <
          amount (escrow_at Whale.funded Whale.id2) * platformFeeBps Whale.funded)
    as Hover by compute_it.
  destruct (X16_overflow_blocks_release Whale.funded (at_time Whale.carol 300) Whale.id2
              Hst Hflag Hover) as [Hrelease _].
  destruct (X16_overflow_blocks_release Whale.funded (at_time bob 700000) Whale.id2
              Hst Hflag Hover) as [_ Hauto].
  do 3 (split; [assumption |]). split.
  - apply Hrelease. compute_it.
  - apply Hauto. compute_it.
Defined.

(** Status 3 is a status of the contract; 7 is not. *)
Lemma X17_witness :
  getStatusString 7 = "UNKNOWN"%string /\ exists st, 3 = status_index st.
Proof.
  destruct (X17_status_names_are_distinct FUNDED DISPUTED 7) as (_ & _ & Hunknown & _).
  destruct (X17_status_names_are_distinct FUNDED DISPUTED 3) as (_ & _ & _ & Hknown).
  split; [apply Hunknown; compute_it | apply Hknown; compute_it].
Defined.

(** The owner resolves Alice's dispute with 30% to her. *)
Lemma X18_witness :
  reachable disputed /\ status (escrow_at disputed id1) = DISPUTED /\
  owner disputed = msg_sender (at_time deployer 400) /\
  ((exists s' log,
       call disputed (at_time deployer 400) (ResolveDispute id1 30) =
         Success RetUnit s' log /\
       escrow_at s' id1 = set_status COMPLETED (escrow_at disputed id1)) \/
   (exists err log,
       call disputed (at_time deployer 400) (ResolveDispute id1 30) = Reverted err log /\
       (kind err = Some TransferFailed \/
        err = ArithmeticPanic /\
        (MAX_UINT256 < amount (escrow_at disputed id1) * 30 \/
         MAX_UINT256 <
           (amount (escrow_at disputed id1) - amount (escrow_at disputed id1) * 30 / 100)
           * platformFeeBps disputed)))).
Proof.
  assert (status (escrow_at disputed id1) = DISPUTED) as Hst by compute_it.
  assert (owner disputed = msg_sender (at_time deployer 400)) as Howner by compute_it.
  split; [apply disputed_reachable |]. do 2 (split; [assumption |]).
  apply (X18_dispute_resolves disputed (at_time deployer 400) id1 30 disputed_reachable
           Hst Howner).
  compute_it.
Defined.

(** The events of Alice's release and of the 30% resolution. *)
Lemma X19_witness :
  events (effects (call funded (at_time alice 300) (ReleaseFunds id1))) =
    [EscrowCompleted id1 995000 5000] /\
  events (effects (call disputed (at_time deployer 400) (ResolveDispute id1 30))) =
    [DisputeResolved id1 300000 700000].
Proof.
  destruct (X19_events_of_a_payout funded (at_time alice 300) id1) as (Hrelease & _).
  destruct (X19_events_of_a_payout disputed (at_time deployer 400) id1)
    as (_ & _ & Hdispute).
  split.
  - apply (Hrelease released). compute_it.
  - apply (Hdispute 30 resolved). compute_it.
Defined.
